(** * httpServe.c: request parsing, path resolution and response framing

    A shallow embedding of [src/httpServe.c] (a single-connection HTTP
    origin server that serves static files from [./www] and relays the
    output of the PHP command-line interpreter).

    - C strings are [string]s; a [char *] into a string is the offset of
      the pointed-to byte, so pointer differences are differences of
      offsets.
    - System calls are answered by a [world] (file tree, descriptor and
      process oracles); every handler returns the [trace] of the system
      calls it performs, from which the bytes sent to the client and the
      set of unreaped children are read back.
    - Console logging ([printf], [perror]) is not part of the trace; what
      of it sits unflushed in the buffer of [stdout] when a child is
      forked is given by the [world], since a child whose [execl] fails
      flushes its copy of that buffer into the pipe.
    - [write] is taken to transfer the whole buffer it is given (the code
      ignores its result), and the client to stay connected.
    - One connection is modelled, from [read] to [close]; [main] is not. *)

From Stdlib Require Import String Ascii List ZArith Lia Bool Arith.
From Equations Require Import Equations.
Import ListNotations.

Open Scope string_scope.
Open Scope list_scope.

(** ** Constants of the translation unit *)

Definition BUFFER_SIZE : nat := 4096.
Definition MAX_PATH_LENGTH : nat := 256.
Definition WWW_DIRECTORY : string := "./www".
Definition PHP_CLI : string := "/usr/bin/php".
Definition EXIT_FAILURE : Z := 1%Z.
Definition LONG_MAX : Z := (2 ^ 63 - 1)%Z.

Definition NUL : ascii := "000"%char.
Definition CR : ascii := "013"%char.
Definition LF : ascii := "010"%char.
Definition CRLF : string := String CR (String LF "").

(** ** The C string library, as far as the server uses it *)

Module CString.

(** The C string held by a byte buffer: the bytes before the first NUL. *)
Fixpoint c_str (buf : string) : string :=
  match buf with
  | "" => ""
  | String c rest => if Ascii.eqb c NUL then "" else String c (c_str rest)
  end.

(** [s + n] for a [char *s]. *)
Fixpoint offset (s : string) (n : nat) {struct n} : string :=
  match n, s with
  | O, _ => s
  | S n', String _ rest => offset rest n'
  | S _, "" => ""
  end.

(** The first [n] bytes of [s] (what [strncpy] followed by a terminator
    at index [n] leaves in the destination when [n <= strlen s]). *)
Fixpoint strncpy (s : string) (n : nat) {struct n} : string :=
  match n, s with
  | O, _ => ""
  | S n', String c rest => String c (strncpy rest n')
  | S _, "" => ""
  end.

(** [strstr]: offset of the first occurrence of [needle], if any. *)
Fixpoint strstr (haystack needle : string) : option nat :=
  if prefix needle haystack then Some 0
  else match haystack with
       | "" => None
       | String _ rest => option_map S (strstr rest needle)
       end.

(** [strrchr]: offset of the last occurrence of [c], if any. *)
Fixpoint strrchr (s : string) (c : ascii) : option nat :=
  match s with
  | "" => None
  | String d rest =>
      match strrchr rest c with
      | Some i => Some (S i)
      | None => if Ascii.eqb d c then Some 0 else None
      end
  end.

Definition byte (c : ascii) : Z := Z.of_nat (nat_of_ascii c).

(** [strcmp]: difference of the first pair of differing bytes. *)
Fixpoint strcmp (a b : string) : Z :=
  match a, b with
  | "", "" => 0
  | "", String d _ => (0 - byte d)
  | String c _, "" => byte c
  | String c a', String d b' =>
      if Ascii.eqb c d then strcmp a' b' else (byte c - byte d)
  end%Z.

(** [strncmp]: [strcmp] on the first [n] bytes at most. *)
Fixpoint strncmp (a b : string) (n : nat) {struct n} : Z :=
  match n with
  | O => 0
  | S n' =>
      match a, b with
      | "", "" => 0
      | "", String d _ => (0 - byte d)
      | String c _, "" => byte c
      | String c a', String d b' =>
          if Ascii.eqb c d then strncmp a' b' n' else (byte c - byte d)
      end
  end%Z.

(** [tolower] in the C locale. *)
Definition tolower (c : ascii) : ascii :=
  let n := nat_of_ascii c in
  if ((65 <=? n) && (n <=? 90))%nat then ascii_of_nat (n + 32) else c.

Fixpoint lower (s : string) : string :=
  match s with
  | "" => ""
  | String c rest => String (tolower c) (lower rest)
  end.

(** [strcasecmp]: [strcmp] on the lower-cased bytes. *)
Fixpoint strcasecmp (a b : string) : Z :=
  match a, b with
  | "", "" => 0
  | "", String d _ => (0 - byte (tolower d))
  | String c _, "" => byte (tolower c)
  | String c a', String d b' =>
      if Ascii.eqb (tolower c) (tolower d) then strcasecmp a' b'
      else (byte (tolower c) - byte (tolower d))
  end%Z.

(** [snprintf (buf, size, "%s...%s", parts)]: the concatenation, cut to
    [size - 1] bytes. *)
Definition snprintf (size : nat) (parts : list string) : string :=
  strncpy (String.concat "" parts) (size - 1).

(** [buf[i]], read as NUL beyond the end of the buffer. *)
Fixpoint peek (buf : string) (i : nat) {struct i} : ascii :=
  match buf, i with
  | "", _ => NUL
  | String c _, O => c
  | String _ rest, S i' => peek rest i'
  end.

(** [buf[i] = c]. *)
Fixpoint poke (buf : string) (i : nat) (c : ascii) {struct i} : string :=
  match buf, i with
  | "", _ => ""
  | String _ rest, O => String c rest
  | String d rest, S i' => String d (poke rest i' c)
  end.

(** [memcpy (buf, s, strlen (s))]: [s] over the first bytes of [buf]. *)
Fixpoint blit (buf s : string) : string :=
  match s, buf with
  | "", _ => buf
  | String c s', String _ rest => String c (blit rest s')
  | String _ _, "" => ""
  end.

(** The last byte [s[strlen(s) - 1]]; there is none in an empty string. *)
Fixpoint last_byte (s : string) : option ascii :=
  match s with
  | "" => None
  | String c "" => Some c
  | String _ rest => last_byte rest
  end.

End CString.
Import CString.

(** ** Helper functions of the server *)

(** [get_file_extension], lines 40-46. *)
Definition get_file_extension (filename : string) : string :=
  match strrchr filename "." with
  | None => ""
  | Some O => ""
  | Some (S dot) => offset filename (S dot + 1)
  end.

(** [get_content_type], lines 49-69. *)
Definition get_content_type (extension : string) : string :=
  if ((strcmp extension "html" =? 0) || (strcmp extension "htm" =? 0))%Z then "text/html"
  else if (strcmp extension "css" =? 0)%Z then "text/css"
  else if (strcmp extension "js" =? 0)%Z then "application/javascript"
  else if ((strcmp extension "jpg" =? 0) || (strcmp extension "jpeg" =? 0))%Z then "image/jpeg"
  else if (strcmp extension "png" =? 0)%Z then "image/png"
  else if (strcmp extension "gif" =? 0)%Z then "image/gif"
  else if (strcmp extension "txt" =? 0)%Z then "text/plain"
  else if (strcmp extension "php" =? 0)%Z then "text/html"
  else "application/octet-stream".

Definition inspect {A} (a : A) : { b : A | a = b } := exist _ a eq_refl.

(** The decoding loop of [get_request_path], lines 101-111, on the bytes
    from [src] to the terminator.  The loop runs in place with
    [dst <= src] throughout, so every byte it reads is still the byte
    [strncpy] put there; the result is what lies between [path] and [dst]
    at the end. *)
Equations? url_decode (src : string) : string by wf (String.length src) lt :=
  url_decode "" := "";
  url_decode (String c rest) with (strncmp (String c rest) "%20" 3 =? 0)%Z := {
    | true := String " " (url_decode (offset (String c rest) 3))
    | false := String c (url_decode rest) }.
Proof.
  destruct rest as [|d [|e r]]; simpl; lia.
Qed.

(** [get_request_path], lines 72-114.  [request] is the receive buffer;
    the C code reads it as a C string.  The result is the C string left
    in the static buffer [path]; [get_request_path_static] below is the
    same function on the bytes of that buffer. *)
Definition get_request_path (request : string) : string :=
  let request := c_str request in
  match strstr request "GET " with
  | None => "/"
  | Some get_pos =>
      let path_start := offset request (get_pos + 4) in
      match strstr path_start " " with
      | None => "/"
      | Some path_end =>
          let path_length :=
            if (MAX_PATH_LENGTH <=? path_end)%nat then MAX_PATH_LENGTH - 1 else path_end in
          url_decode (strncpy path_start path_length)
      end
  end.

(** *** The same, in the static buffer *)

(** The decoding loop as it runs: [src] and [dst] are offsets into the
    one buffer [path], which the loop reads at [src] and writes at
    [dst]. *)
Equations? decode_in_place (path : string) (src dst : nat) : string
  by wf (String.length path - src) lt :=
  decode_in_place path src dst with inspect (Ascii.eqb (peek path src) NUL) := {
    | exist _ true _ := poke path dst NUL
    | exist _ false running with (strncmp (offset path src) "%20" 3 =? 0)%Z := {
        | true := decode_in_place (poke path dst " ") (src + 3) (S dst)
        | false := decode_in_place (poke path dst (peek path src)) (S src) (S dst) } }.
Proof.
  all: assert (Hlen : forall buf i c, String.length (poke buf i c) = String.length buf)
    by (induction buf; intros [|i] c; simpl; auto).
  all: assert (Hin : forall buf i, Ascii.eqb (peek buf i) NUL = false ->
                                   i < String.length buf)
    by (induction buf; intros [|i] H; simpl in *; try discriminate;
        auto with arith).
  all: rewrite Hlen; apply Hin in running; lia.
Qed.

(** [get_request_path] on the bytes of its static buffer: [path] is what
    the buffer holds when the function is entered, the result is what it
    holds when the function returns. *)
Definition get_request_path_static (path request : string) : string :=
  let request := c_str request in
  match strstr request "GET " with
  | None => blit path (String "/" (String NUL ""))
  | Some get_pos =>
      let path_start := offset request (get_pos + 4) in
      match strstr path_start " " with
      | None => blit path (String "/" (String NUL ""))
      | Some path_end =>
          let path_length :=
            if (MAX_PATH_LENGTH <=? path_end)%nat then MAX_PATH_LENGTH - 1 else path_end in
          let path := blit path (strncpy path_start path_length) in
          let path := poke path path_length NUL in
          decode_in_place path 0 0
      end
  end.

(** ** The operating system as the server sees it *)

Module Posix.

(** Path names.  A path is cut at its slashes; empty pieces (doubled,
    leading or trailing slashes) and [.] pieces do not name anything, but
    stand where a directory must be.  [..] is left to the file tree to
    answer. *)
Fixpoint split_slash (path : string) : list string :=
  match path with
  | "" => [""]
  | String c rest =>
      if Ascii.eqb c "/" then "" :: split_slash rest
      else match split_slash rest with
           | piece :: pieces => String c piece :: pieces
           | [] => [String c ""]
           end
  end.

Definition names_something (piece : string) : bool :=
  negb (String.eqb piece "" || String.eqb piece ".").

Inductive node :=
| Reg (data : string) (readable : bool)
| Dir (st_size : Z) (readable : bool).

Definition is_dir (n : node) : bool :=
  match n with Dir _ _ => true | Reg _ _ => false end.

Definition may_read (n : node) : bool :=
  match n with Dir _ r => r | Reg _ r => r end.

Definition size_of (n : node) : Z :=
  match n with
  | Reg data _ => Z.of_nat (String.length data)
  | Dir st_size _ => st_size
  end.

(** What the server cannot decide for itself.
    - [w_tree] is the file tree seen from the working directory;
    - [w_fstat_ok] tells whether [fstat] on an open file succeeds;
    - [w_pipe_ok] tells whether [pipe] succeeds;
    - [w_fork] is what [fork] returns in the parent: the child's pid, or
      nothing when it fails;
    - [w_php_executable] tells whether [execl] of [PHP_CLI] succeeds;
    - [w_php script] is what the interpreter run on [script] writes to
      its standard output, as the results of the parent's successive
      [read]s on the pipe up to end-of-stream, and its exit status;
    - [w_stdout_pending] is what the stdio buffer of [stdout] holds,
      written by [printf] and not yet flushed, when [serve_php] forks:
      log text when [stdout] is fully buffered (a file or a pipe), nothing
      when it is line buffered or unbuffered (a terminal), every [printf]
      of the server ending in a newline.  It is given as the results of
      the parent's successive [read]s on the pipe once a child has
      flushed it there.
    Only scripts that terminate are described, and reading the pipe
    does not fail. *)
Record world := {
  w_tree : list string -> option node;
  w_fstat_ok : bool;
  w_pipe_ok : bool;
  w_fork : option nat;
  w_php_executable : bool;
  w_php : string -> list string * Z;
  w_stdout_pending : list string
}.

(** [cur] is the working directory, or a directory of the tree. *)
Definition searchable (w : world) (cur : list string) : bool :=
  match cur with
  | [] => true
  | _ => match w_tree w cur with
         | Some n => is_dir n
         | None => false
         end
  end.

(** Path resolution, piece by piece, from the working directory: every
    piece is looked for in a directory (ENOTDIR otherwise), also the
    empty and [.] pieces, which stay there; a name must be in the tree
    (ENOENT otherwise). *)
Fixpoint walk (w : world) (cur : list string) (pieces : list string)
  : option (list string) :=
  match pieces with
  | [] => Some cur
  | piece :: later =>
      if searchable w cur then
        if names_something piece then
          match w_tree w (cur ++ [piece]) with
          | Some _ => walk w (cur ++ [piece]) later
          | None => None
          end
        else walk w cur later
      else None
  end.

(** What [stat] and [open] find at [path], from the working directory
    (every path the server forms starts with [./www]).  The empty path
    names nothing; a path that ends in a slash or in [/.] names
    directories only, by the last step of the walk. *)
Definition lookup (w : world) (path : string) : option node :=
  match path with
  | "" => None
  | _ =>
      match walk w [] (split_slash path) with
      | Some cur => w_tree w cur
      | None => None
      end
  end.

Inductive fd := Client | FileFd | PipeRead | PipeWrite.

Inductive event :=
| EvStat (path : string) (ok : bool)
| EvOpen (path : string) (ok : bool)
| EvFstat (st_size : option Z)
| EvPipe (ok : bool)
| EvFork (child : option nat)
| EvRead (f : fd) (got : option string)
| EvWrite (f : fd) (data : string)
| EvClose (f : fd)
| EvWaitpid (child : nat) (status : Z).

Definition trace := list event.

(** A computation performs system calls and returns a value. *)
Definition Sys (A : Type) : Type := trace * A.

Definition ret {A} (a : A) : Sys A := ([], a).

Definition bind {A B} (m : Sys A) (k : A -> Sys B) : Sys B :=
  let (t1, a) := m in
  let (t2, b) := k a in
  (t1 ++ t2, b).

Definition call {A} (e : event) (result : A) : Sys A := ([e], result).

Definition trace_of {A} (m : Sys A) : trace := fst m.

End Posix.
Import Posix.

Declare Scope sys_scope.
Delimit Scope sys_scope with sys.
Notation "x <- m ;; k" := (bind m (fun x => k))
  (at level 61, m at next level, right associativity) : sys_scope.
Notation "m ;; k" := (bind m (fun _ => k))
  (at level 61, right associativity) : sys_scope.
Open Scope sys_scope.

(** ** What a trace shows *)

(** The buffers handed to [write] on the client socket, in order. *)
Fixpoint client_writes (t : trace) : list string :=
  match t with
  | [] => []
  | EvWrite Client data :: t' => data :: client_writes t'
  | _ :: t' => client_writes t'
  end.

(** The bytes the client receives. *)
Definition client_output (t : trace) : string :=
  String.concat "" (client_writes t).

(** The children forked and not yet waited for. *)
Fixpoint unreaped_from (live : list nat) (t : trace) : list nat :=
  match t with
  | [] => live
  | EvFork (Some pid) :: t' => unreaped_from (pid :: live) t'
  | EvWaitpid pid _ :: t' => unreaped_from (remove Nat.eq_dec pid live) t'
  | _ :: t' => unreaped_from live t'
  end.

Definition unreaped (t : trace) : list nat := unreaped_from [] t.

(** ** System calls *)

Definition sys_stat (w : world) (path : string) : Sys bool :=
  let ok := match lookup w path with Some _ => true | None => false end in
  call (EvStat path ok) ok.

Definition sys_open (w : world) (path : string) : Sys (option node) :=
  match lookup w path with
  | Some n => if may_read n then call (EvOpen path true) (Some n)
              else call (EvOpen path false) None
  | None => call (EvOpen path false) None
  end.

Definition sys_fstat (w : world) (n : node) : Sys (option Z) :=
  let r := if w_fstat_ok w then Some (size_of n) else None in
  call (EvFstat r) r.

Definition sys_pipe (w : world) : Sys bool := call (EvPipe (w_pipe_ok w)) (w_pipe_ok w).
Definition sys_fork (w : world) : Sys (option nat) := call (EvFork (w_fork w)) (w_fork w).
Definition sys_write (f : fd) (data : string) : Sys unit := call (EvWrite f data) tt.
Definition sys_close (f : fd) : Sys unit := call (EvClose f) tt.
Definition sys_waitpid (pid : nat) (status : Z) : Sys Z := call (EvWaitpid pid status) status.

(** [file_exists], lines 34-37. *)
Definition file_exists (w : world) (path : string) : Sys bool := sys_stat w path.

(** ** Formatting *)

Definition digit_char (d : Z) : ascii := ascii_of_nat (48 + Z.to_nat d).

(** Decimal digits of a non-negative number, most significant first;
    [fuel] bounds their number. *)
Fixpoint print_digits (fuel : nat) (n : Z) (acc : string) : string :=
  match fuel with
  | O => acc
  | S fuel' =>
      let acc' := String (digit_char (n mod 10)) acc in
      if (n <? 10)%Z then acc' else print_digits fuel' (n / 10) acc'
  end.

(** The [%ld] conversion; a [long] has at most 19 decimal digits. *)
Definition print_ld (n : Z) : string :=
  if (n <? 0)%Z then String "-" (print_digits 19 (- n) "")
  else print_digits 19 n "".

(** The number a string of decimal digits denotes. *)
Fixpoint decimal_value_from (acc : Z) (s : string) : Z :=
  match s with
  | "" => acc
  | String c rest => decimal_value_from (10 * acc + (byte c - 48)) rest
  end.

Definition decimal_value (s : string) : Z := decimal_value_from 0 s.

(** ** Responses *)

Definition not_found_response : string :=
  "HTTP/1.1 404 Not Found" ++ CRLF ++
  "Content-Type: text/html" ++ CRLF ++
  "Connection: close" ++ CRLF ++
  CRLF ++
  "<html><body>" ++
  "<h1>404 Not Found</h1>" ++
  "<p>The requested resource could not be found on this server.</p>" ++
  "</body></html>".

Definition server_error_response : string :=
  "HTTP/1.1 500 Internal Server Error" ++ CRLF ++
  "Content-Type: text/html" ++ CRLF ++
  "Connection: close" ++ CRLF ++
  CRLF ++
  "<html><body>" ++
  "<h1>500 Internal Server Error</h1>" ++
  "<p>The server encountered an error while processing your request.</p>" ++
  "</body></html>".

Definition php_headers : string :=
  "HTTP/1.1 200 OK" ++ CRLF ++
  "Content-Type: text/html" ++ CRLF ++
  "Connection: close" ++ CRLF ++
  CRLF.

Definition file_headers (content_type : string) (st_size : Z) : string :=
  snprintf BUFFER_SIZE
    [ "HTTP/1.1 200 OK"; CRLF;
      "Content-Type: "; content_type; CRLF;
      "Content-Length: "; print_ld st_size; CRLF;
      "Connection: close"; CRLF;
      CRLF ].

(** [send_not_found], lines 117-129. *)
Definition send_not_found : Sys unit := sys_write Client not_found_response.

(** [send_server_error], lines 132-144. *)
Definition send_server_error : Sys unit := sys_write Client server_error_response.

(** ** The script executor *)

(** What the forked child does, seen from the parent, lines 169-181.
    Its standard output is the pipe.  [execl (PHP_CLI, PHP_CLI, file_path,
    NULL)] either replaces it by the interpreter, and the stdio buffer it
    inherited is gone with the old image; or fails, and then [perror]
    writes to the standard error, and [exit (EXIT_FAILURE)] flushes the
    inherited buffer of [stdout] into the pipe. *)
Definition child (w : world) (file_path : string) : list string * Z :=
  if w_php_executable w then w_php w file_path
  else (w_stdout_pending w, EXIT_FAILURE).

(** The relay loop of [serve_php], lines 197-199: a [read] that returns no
    byte ends it. *)
Fixpoint relay_pipe (reads : list string) : Sys unit :=
  match reads with
  | [] => call (EvRead PipeRead (Some "")) tt
  | "" :: _ => call (EvRead PipeRead (Some "")) tt
  | chunk :: later =>
      call (EvRead PipeRead (Some chunk)) tt ;;
      sys_write Client chunk ;;
      relay_pipe later
  end.

(** [serve_php], lines 147-211. *)
Definition serve_php (w : world) (file_path : string) : Sys unit :=
  piped <- sys_pipe w ;;
  if negb piped then send_server_error
  else
    pid <- sys_fork w ;;
    match pid with
    | None =>
        sys_close PipeRead ;;
        sys_close PipeWrite ;;
        send_server_error
    | Some pid =>
        let (reads, status) := child w file_path in
        sys_close PipeWrite ;;
        sys_write Client php_headers ;;
        relay_pipe reads ;;
        sys_close PipeRead ;;
        _ <- sys_waitpid pid status ;;
        ret tt
    end.

(** ** The static file server *)

(** The copy loop of [serve_file], lines 252-254, on what is left of a
    regular file: each [read] returns the next [size] bytes at most, and a
    [read] that returns none ends the loop. *)
Equations? copy_file (size : nat) (rest : string) : Sys unit
  by wf (String.length rest) lt :=
  copy_file size rest with inspect (strncpy rest size) := {
    | exist _ "" _ := call (EvRead FileFd (Some "")) tt
    | exist _ chunk got :=
        call (EvRead FileFd (Some chunk)) tt ;;
        sys_write Client chunk ;;
        copy_file size (offset rest size) }.
Proof.
  assert (H : forall n s, String.length (offset s n) <= String.length s)
    by (induction n; intros [|? ?]; simpl; auto with arith).
  destruct size, rest; simpl in *; try discriminate.
  specialize (H size rest). lia.
Qed.

(** Reading a directory fails at once. *)
Definition copy_node (n : node) : Sys unit :=
  match n with
  | Reg data _ => copy_file BUFFER_SIZE data
  | Dir _ _ => call (EvRead FileFd None) tt
  end.

(** [serve_file], lines 214-257. *)
Definition serve_file (w : world) (file_path : string) : Sys unit :=
  let extension := get_file_extension file_path in
  let content_type := get_content_type extension in
  file <- sys_open w file_path ;;
  match file with
  | None => send_not_found
  | Some n =>
      file_stat <- sys_fstat w n ;;
      match file_stat with
      | None =>
          sys_close FileFd ;;
          send_server_error
      | Some st_size =>
          sys_write Client (file_headers content_type st_size) ;;
          copy_node n ;;
          sys_close FileFd
      end
  end.

(** ** The dispatcher *)

(** The three ways [handle_client] answers a request path. *)
Inductive target :=
| StaticFile (file_path : string)
| ScriptFile (file_path : string)
| NotFound.

(** The branch of [handle_client], lines 276-308, up to the choice of the
    handler.  Reading [request_path[strlen(request_path) - 1]] of an empty
    path is out of bounds: there the function has no defined result. *)
Definition resolve (w : world) (request_path : string) : option (Sys target) :=
  let file_path := snprintf MAX_PATH_LENGTH [WWW_DIRECTORY; request_path] in
  match last_byte request_path with
  | None => None
  | Some last =>
      if Ascii.eqb last "/" then
        let index_html_path := snprintf MAX_PATH_LENGTH [file_path; "/index.html"] in
        let index_php_path := snprintf MAX_PATH_LENGTH [file_path; "/index.php"] in
        Some (html <- file_exists w index_html_path ;;
              if html then ret (StaticFile index_html_path)
              else
                php <- file_exists w index_php_path ;;
                if php then ret (ScriptFile index_php_path)
                else ret NotFound)
      else
        Some (found <- file_exists w file_path ;;
              if found then
                let extension := get_file_extension file_path in
                if (strcasecmp extension "php" =? 0)%Z then ret (ScriptFile file_path)
                else ret (StaticFile file_path)
              else ret NotFound)
  end.

(** The call each branch makes. *)
Definition respond (w : world) (t : target) : Sys unit :=
  match t with
  | StaticFile file_path => serve_file w file_path
  | ScriptFile file_path => serve_php w file_path
  | NotFound => send_not_found
  end.

(** What a call of [handle_client] does: the system calls it performs,
    or nothing that C defines. *)
Inductive outcome :=
| Defined (t : trace)
| Undefined.

(** [handle_client], lines 259-311.  [incoming] is what the client has
    sent when the server reads: [None] if the [read] fails. *)
Definition handle_client (w : world) (incoming : option string) : outcome :=
  let bytes_read := option_map (fun sent => strncpy sent (BUFFER_SIZE - 1)) incoming in
  match bytes_read with
  | None | Some "" => Defined [EvRead Client bytes_read; EvClose Client]
  | Some buffer =>
      let request_path := get_request_path buffer in
      match resolve w request_path with
      | None => Undefined
      | Some resolution =>
          Defined (EvRead Client bytes_read ::
                   trace_of (t <- resolution ;;
                             respond w t ;;
                             sys_close Client))
      end
  end.

(** ** Sample runs *)

Module Samples.

Definition tree (files : list (list string * node)) (key : list string) : option node :=
  match find (fun entry => if list_eq_dec string_dec (fst entry) key then true else false) files with
  | Some entry => Some (snd entry)
  | None => None
  end.

Definition site : list (list string * node) :=
  [ ([], Dir 4096 true);
    (["www"], Dir 4096 true);
    (["www"; "index.html"], Reg "<h1>hi</h1>" true);
    (["www"; "info.php"], Reg "<?php phpinfo(); ?>" true);
    (["www"; "page.PHP"], Reg "<?php echo 1; ?>" true);
    (["www"; "NOTES.Txt"], Reg "notes" true) ].

Definition healthy : world :=
  {| w_tree := tree site;
     w_fstat_ok := true;
     w_pipe_ok := true;
     w_fork := Some 4242;
     w_php_executable := true;
     w_php := fun _ => (["hel"; "lo"], 0%Z);
     w_stdout_pending := [] |}.


(** No interpreter at [PHP_CLI]; [stdout] goes to a file, and the last
    lines of the log are still in its buffer at the fork. *)
Definition no_php_logged : world :=
  {| w_tree := tree site;
     w_fstat_ok := true;
     w_pipe_ok := true;
     w_fork := Some 4242;
     w_php_executable := false;
     w_php := fun _ => (["hel"; "lo"], 0%Z);
     w_stdout_pending :=
       [ ("Requested path: /info.php" ++ String LF "" ++
          "Executing PHP script: ./www/info.php" ++ String LF "")%string ] |}.

Definition request (line : string) : option string :=
  Some (line ++ CRLF ++ "Host: localhost" ++ CRLF ++ CRLF)%string.

(** A GET line that ends without a space after the target, followed by
    a header line. *)
Definition headerless_get : string :=
  ("GET /index.html" ++ CRLF ++ "Host: localhost" ++ CRLF ++ CRLF)%string.

(** A GET line whose target is a relative name. *)
Definition relative_get : string :=
  ("GET index.html HTTP/1.1" ++ CRLF ++ CRLF)%string.

(** Long names. *)
Fixpoint run (c : ascii) (n : nat) : string :=
  match n with
  | O => ""
  | S n' => String c (run c n')
  end.

(** A directory with a long name that holds a file [index] and no index
    page. *)
Definition deep : world :=
  {| w_tree := tree [ ([], Dir 4096 true);
                      (["www"], Dir 4096 true);
                      (["www"; run "a" 242], Dir 4096 true);
                      (["www"; run "a" 242; "index"], Reg "not a page" true) ];
     w_fstat_ok := true;
     w_pipe_ok := true;
     w_fork := Some 4242;
     w_php_executable := true;
     w_php := fun _ => ([], 0%Z);
     w_stdout_pending := [] |}.

Definition deep_path : string := ("/" ++ run "a" 242 ++ "/")%string.

(** A script with a long name, next to a file whose name is the first
    249 bytes of the script's. *)
Definition long : world :=
  {| w_tree := tree [ ([], Dir 4096 true);
                      (["www"], Dir 4096 true);
                      (["www"; run "a" 249], Reg "plain" true);
                      (["www"; (run "a" 250 ++ ".PHP")%string], Reg "<?php ?>" true) ];
     w_fstat_ok := true;
     w_pipe_ok := true;
     w_fork := Some 4242;
     w_php_executable := true;
     w_php := fun _ => (["out"], 0%Z);
     w_stdout_pending := [] |}.

Definition long_path : string := ("/" ++ run "a" 250 ++ ".PHP")%string.

End Samples.

Example get_request_path_decodes : get_request_path ("GET /a%20b.html HTTP/1.1" ++ CRLF)%string = "/a b.html".
Proof. reflexivity. Qed.
Example get_request_path_post : get_request_path ("POST /a HTTP/1.1" ++ CRLF)%string = "/".
Proof. reflexivity. Qed.
Example extension_last_dot : get_file_extension "./www/a.b/page.PHP" = "PHP".
Proof. reflexivity. Qed.
Example extension_leading_dot : get_file_extension "./www/page" = "".
Proof. reflexivity. Qed.
Example content_type_upper : get_content_type "HTML" = "application/octet-stream".
Proof. reflexivity. Qed.
Example static_buffer_decodes :
  c_str (get_request_path_static (Samples.run "x" MAX_PATH_LENGTH)
                                 "GET /a%20b%20c HTTP/1.1") = "/a b c".
Proof. vm_compute. reflexivity. Qed.
Example empty_path_undefined :
  handle_client Samples.healthy (Samples.request "GET  HTTP/1.1") = Undefined.
Proof. vm_compute. reflexivity. Qed.
Example lookup_through_dot :
  lookup Samples.healthy "./www/./index.html" = Some (Reg "<h1>hi</h1>" true).
Proof. reflexivity. Qed.
Example lookup_below_a_file : lookup Samples.healthy "./www/index.html/." = None.
Proof. reflexivity. Qed.
Example lookup_file_with_slash : lookup Samples.healthy "./www/index.html/" = None.
Proof. reflexivity. Qed.
Example dot_below_a_file_not_found :
  handle_client Samples.healthy (Samples.request "GET /index.html/. HTTP/1.1") =
  Defined [ EvRead Client (Samples.request "GET /index.html/. HTTP/1.1");
            EvStat "./www/index.html/." false;
            EvWrite Client not_found_response;
            EvClose Client ].
Proof. vm_compute. reflexivity. Qed.
Example failed_exec_flushes_log :
  child Samples.no_php_logged "./www/info.php" =
  ([ ("Requested path: /info.php" ++ String LF "" ++
      "Executing PHP script: ./www/info.php" ++ String LF "")%string ], EXIT_FAILURE).
Proof. reflexivity. Qed.


(** ** Notions of the specification *)

(** [needle] occurs in [s]. *)
Definition occurs (needle s : string) : Prop :=
  exists pre post, s = (pre ++ needle ++ post)%string.

(** [pre] is what precedes the first occurrence of [needle] in [s], and
    [post] what follows it. *)
Definition first_occurrence (needle s pre post : string) : Prop :=
  s = (pre ++ needle ++ post)%string /\
  forall pre' post', s = (pre' ++ needle ++ post')%string ->
                     String.length pre <= String.length pre'.

(** The first line of a request: the bytes before the first CR or LF. *)
Fixpoint first_line (request : string) : string :=
  match request with
  | "" => ""
  | String c rest =>
      if Ascii.eqb c CR || Ascii.eqb c LF then "" else String c (first_line rest)
  end.

(** A request line [GET <target> <rest>]: the method is GET and a space
    follows the target. *)
Definition well_formed_get_line (line : string) : bool :=
  prefix "GET " line &&
  match String.index 4 " " line with Some _ => true | None => false end.

(** The extensions [get_content_type] has an entry for. *)
Definition known_extensions : list string :=
  ["html"; "htm"; "css"; "js"; "jpg"; "jpeg"; "png"; "gif"; "txt"; "php"].

(** The head of a response: a status line, header lines, and the empty
    line that ends them. *)
Definition response_head (status : string) (headers : list string) : string :=
  ("HTTP/1.1 " ++ status ++ CRLF ++
   String.concat "" (map (fun h => h ++ CRLF) headers) ++ CRLF)%string.

(** [path] names something. *)
Definition exists_in (w : world) (path : string) : bool :=
  match lookup w path with Some _ => true | None => false end.

(** The resolution of a request path that ends in a slash, in the words of
    the specification: [index.html] under document root and path, then
    [index.php], then nothing. *)
Definition resolve_directory_spec (w : world) (request_path : string) : target :=
  let index_html := (WWW_DIRECTORY ++ request_path ++ "index.html")%string in
  let index_php := (WWW_DIRECTORY ++ request_path ++ "index.php")%string in
  if exists_in w index_html then StaticFile index_html
  else if exists_in w index_php then ScriptFile index_php
  else NotFound.

(** The decision [resolve] comes to. *)
Definition decision (r : option (Sys target)) : option target := option_map snd r.

(** [chunk] was read from a file or from the pipe in the course of [t]. *)
Definition relayed (t : trace) (chunk : string) : Prop :=
  In (EvRead FileFd (Some chunk)) t \/ In (EvRead PipeRead (Some chunk)) t.

(** A loop that reads chunks from [f] and writes each to the client. *)
Definition exchange (f : fd) (chunks : list string) : trace :=
  flat_map (fun chunk => [EvRead f (Some chunk); EvWrite Client chunk]) chunks.

(** What a child has written when the pipe reports end-of-stream. *)
Fixpoint pipe_output (reads : list string) : string :=
  match reads with
  | [] => ""
  | "" :: _ => ""
  | chunk :: later => (chunk ++ pipe_output later)%string
  end.

(** An event of the relay loop before end-of-stream: a non-empty [read]
    from the pipe, or a [write] to the client. *)
Definition relay_event (e : event) : Prop :=
  exists chunk, chunk <> "" /\
                (e = EvRead PipeRead (Some chunk) \/ e = EvWrite Client chunk).

(** The pages sent with the two error heads. *)
Definition not_found_page : string :=
  "<html><body><h1>404 Not Found</h1><p>The requested resource could not be found on this server.</p></body></html>".

Definition server_error_page : string :=
  "<html><body><h1>500 Internal Server Error</h1><p>The server encountered an error while processing your request.</p></body></html>".

Definition close_headers : list string :=
  ["Content-Type: text/html"; "Connection: close"].

(** Every byte of [s] passes [p]. *)
Fixpoint all_bytes (p : ascii -> bool) (s : string) : bool :=
  match s with
  | "" => true
  | String c rest => p c && all_bytes p rest
  end.

(** The byte [a] is not in [s]. *)
Definition absent (a : ascii) (s : string) : bool :=
  all_bytes (fun c => negb (Ascii.eqb c a)) s.

(** A byte that [%ld] prints. *)
Definition digit_or_minus (c : ascii) : bool :=
  ((48 <=? nat_of_ascii c) && (nat_of_ascii c <=? 57))%nat || Ascii.eqb c "-".

(** The number of places in [s] where a status line can start: the
    occurrences of the protocol version and the space after it. *)
Fixpoint status_count (s : string) : nat :=
  match s with
  | "" => 0
  | String _ rest => (if prefix "HTTP/1.1 " s then 1 else 0) + status_count rest
  end.

(** A header line: not empty, and one line. *)
Definition header_line (h : string) : Prop := h <> "" /\ ~ occurs CRLF h.

(** One response.  The first buffer written is a head and the page that
    comes with it: the status line is one of the three, the header lines
    are lines and [Connection: close] is one of them, the page is empty
    or one of the two error pages, and in all of it a status line
    starts at one place only.  Every later buffer was read from a file or
    from the pipe. *)
Definition one_response (t : trace) : Prop :=
  exists status headers page body,
    client_writes t = (response_head status headers ++ page)%string :: body /\
    In status ["200 OK"; "404 Not Found"; "500 Internal Server Error"] /\
    Forall header_line headers /\
    In "Connection: close" headers /\
    In page [""; not_found_page; server_error_page] /\
    status_count (response_head status headers ++ page) = 1 /\
    Forall (relayed t) body.

(** *** Descriptors and path names in a trace *)

Definition fd_eqb (a b : fd) : bool :=
  match a, b with
  | Client, Client | FileFd, FileFd | PipeRead, PipeRead | PipeWrite, PipeWrite => true
  | _, _ => false
  end.

Definition is_open (f : fd) (open : list fd) : bool := existsb (fd_eqb f) open.

Definition shut (f : fd) (open : list fd) : list fd :=
  filter (fun g => negb (fd_eqb f g)) open.

(** The descriptors open after [t], starting from [open]; nothing if [t]
    reads, writes, stats or closes a descriptor that is not open, or
    opens one that is. *)
Fixpoint descriptors (open : list fd) (t : trace) : option (list fd) :=
  match t with
  | [] => Some open
  | EvOpen _ true :: t' =>
      if is_open FileFd open then None else descriptors (FileFd :: open) t'
  | EvPipe true :: t' =>
      if is_open PipeRead open || is_open PipeWrite open then None
      else descriptors (PipeRead :: PipeWrite :: open) t'
  | EvFstat _ :: t' =>
      if is_open FileFd open then descriptors open t' else None
  | EvRead f _ :: t' =>
      if is_open f open then descriptors open t' else None
  | EvWrite f _ :: t' =>
      if is_open f open then descriptors open t' else None
  | EvClose f :: t' =>
      if is_open f open then descriptors (shut f open) t' else None
  | _ :: t' => descriptors open t'
  end.

(** The path names handed to [stat] and [open] in the course of [t]. *)
Fixpoint paths_used (t : trace) : list string :=
  match t with
  | [] => []
  | EvStat path _ :: t' => path :: paths_used t'
  | EvOpen path _ :: t' => path :: paths_used t'
  | _ :: t' => paths_used t'
  end.

(** [path] fits a path buffer, terminator included. *)
Definition fits_path_buffer (path : string) : Prop :=
  String.length path <= MAX_PATH_LENGTH - 1.

(** The bytes of a file, as far as they can be read. *)
Definition readable_bytes (n : node) : string :=
  match n with
  | Reg data _ => data
  | Dir _ _ => ""
  end.

(** The invariant the specification gives for a RequestPath. *)
Definition request_path_invariant (path : string) : Prop :=
  prefix "/" path = true /\
  ~ occurs "%20" path /\
  String.length path <= MAX_PATH_LENGTH - 1.

(** * Facts *)

(** ** Strings *)

Module StringFacts.

Lemma app_assoc (a b c : string) : ((a ++ b) ++ c = a ++ (b ++ c))%string.
Proof. induction a as [|x a IH]; simpl; congruence. Qed.

Lemma app_nil_r (a : string) : (a ++ "" = a)%string.
Proof. induction a as [|x a IH]; simpl; congruence. Qed.

Lemma length_app (a b : string) :
  String.length (a ++ b) = String.length a + String.length b.
Proof. induction a as [|x a IH]; simpl; congruence. Qed.

Lemma offset_length (s : string) (n : nat) :
  String.length (offset s n) = String.length s - n.
Proof.
  revert s; induction n as [|n IH]; intros [|c s]; simpl; auto with arith.
Qed.

Lemma offset_shorter (s : string) (n : nat) :
  strncpy s n <> "" -> String.length (offset s n) < String.length s.
Proof.
  intros H. rewrite offset_length.
  destruct n as [|n], s as [|c s]; simpl in *; try congruence; lia.
Qed.

Lemma prefix_iff (needle s : string) :
  prefix needle s = true <-> exists post, s = (needle ++ post)%string.
Proof.
  revert s; induction needle as [|c needle IH]; intros s.
  - destruct s; simpl; split; eauto.
  - destruct s as [|d s]; simpl.
    + split; [discriminate|]. intros [post H]; discriminate.
    + destruct (ascii_dec c d) as [->|Hcd].
      * rewrite IH. split; intros [post H]; exists post; congruence.
      * split; [discriminate|]. intros [post H]; congruence.
Qed.

Lemma occurs_tail (needle s : string) (c : ascii) :
  occurs needle s -> occurs needle (String c s).
Proof. intros (pre & post & ->). exists (String c pre), post. reflexivity. Qed.

Lemma occurs_cons (needle s : string) (c : ascii) :
  occurs needle (String c s) ->
  prefix needle (String c s) = true \/ occurs needle s.
Proof.
  intros (pre & post & H). destruct pre as [|d pre]; simpl in H.
  - left. apply prefix_iff. eauto.
  - right. injection H as _ ->. exists pre, post. reflexivity.
Qed.

Lemma occurs_app_l (needle a b : string) : occurs needle a -> occurs needle (a ++ b).
Proof.
  intros (pre & post & ->). exists pre, (post ++ b)%string.
  now rewrite !app_assoc.
Qed.

Lemma occurs_app_r (needle a b : string) : occurs needle b -> occurs needle (a ++ b).
Proof.
  intros (pre & post & ->). exists (a ++ pre)%string, post.
  now rewrite !app_assoc.
Qed.

Lemma not_occurs_empty (needle : string) : needle <> "" -> ~ occurs needle "".
Proof.
  intros Hn (pre & post & H). destruct pre, needle; simpl in H; congruence.
Qed.

(** [strstr] finds the first occurrence, and fails only if there is none. *)
Lemma strstr_none_sound (needle s : string) :
  strstr s needle = None -> ~ occurs needle s.
Proof.
  induction s as [|c s IH]; cbn [strstr].
  - destruct (prefix needle "") eqn:Hp; [discriminate|]. intros _ (pre & post & H).
    destruct pre, needle; simpl in *; congruence.
  - destruct (prefix needle (String c s)) eqn:Hp; [discriminate|].
    destruct (strstr s needle); [discriminate|]. intros _ Ho.
    apply occurs_cons in Ho as [Ho|Ho]; [congruence|]. now apply IH.
Qed.

Lemma strstr_some_sound (needle s : string) (i : nat) :
  strstr s needle = Some i ->
  exists pre post, first_occurrence needle s pre post /\ String.length pre = i.
Proof.
  revert i; induction s as [|c s IH]; intros i; cbn [strstr].
  - destruct (prefix needle "") eqn:Hp; [|discriminate]. intros [= <-].
    apply prefix_iff in Hp as [post Hp]. exists "", post. repeat split; auto.
    intros; simpl; lia.
  - destruct (prefix needle (String c s)) eqn:Hp.
    + intros [= <-]. apply prefix_iff in Hp as [post Hp]. exists "", post.
      repeat split; auto. intros; simpl; lia.
    + destruct (strstr s needle) as [j|]; [|discriminate]. intros [= <-].
      destruct (IH j eq_refl) as (pre & post & [-> Hmin] & <-).
      exists (String c pre), post. repeat split; auto.
      intros [|d pre'] post' H; simpl in H.
      * exfalso. assert (prefix needle (String c (pre ++ needle ++ post)) = true)
          by (apply prefix_iff; eauto). congruence.
      * injection H as _ H. apply Hmin in H. simpl; lia.
Qed.

Lemma strstr_none (needle s : string) :
  ~ occurs needle s -> strstr s needle = None.
Proof.
  intros Hn. destruct (strstr s needle) as [i|] eqn:H; [|reflexivity].
  apply strstr_some_sound in H as (pre & post & [H _] & _).
  exfalso; apply Hn. exists pre, post. exact H.
Qed.

Lemma strstr_first (needle s pre post : string) :
  first_occurrence needle s pre post -> strstr s needle = Some (String.length pre).
Proof.
  intros [H Hmin]. destruct (strstr s needle) as [i|] eqn:Hs.
  - apply strstr_some_sound in Hs as (pre' & post' & [H' Hmin'] & <-).
    apply Hmin in H'. apply Hmin' in H. f_equal. lia.
  - apply strstr_none_sound in Hs. exfalso; apply Hs. exists pre, post. exact H.
Qed.

Lemma offset_app (a b : string) : offset (a ++ b) (String.length a) = b.
Proof. induction a as [|x a IH]; simpl; [destruct b|]; auto. Qed.

Lemma strncpy_app (a b : string) : strncpy (a ++ b) (String.length a) = a.
Proof. induction a as [|x a IH]; simpl; [destruct b; reflexivity|]; congruence. Qed.

Lemma strncpy_length (s : string) (n : nat) : String.length (strncpy s n) <= n.
Proof. revert s; induction n as [|n IH]; intros [|c s]; simpl; auto with arith. Qed.

Lemma strncpy_offset (s : string) (n : nat) : (strncpy s n ++ offset s n)%string = s.
Proof. revert s; induction n as [|n IH]; intros [|c s]; simpl; congruence. Qed.

Lemma c_str_app (a b : string) :
  ~ occurs (String NUL "") a -> c_str (a ++ b) = (a ++ c_str b)%string.
Proof.
  induction a as [|x a IH]; simpl; [reflexivity|]. intros H.
  destruct (Ascii.eqb_spec x NUL) as [->|_].
  - exfalso; apply H. exists "", a. reflexivity.
  - f_equal. apply IH. intros Ho. apply H. now apply occurs_tail.
Qed.

Lemma c_str_no_nul (buf : string) : ~ occurs (String NUL "") (c_str buf).
Proof.
  induction buf as [|x buf IH]; simpl.
  - apply not_occurs_empty. discriminate.
  - destruct (Ascii.eqb_spec x NUL) as [->|Hx].
    + apply not_occurs_empty. discriminate.
    + intros Ho. apply occurs_cons in Ho as [Ho|Ho]; [|auto].
      apply prefix_iff in Ho as [post Ho]. simpl in Ho. congruence.
Qed.

Lemma byte_inj (c d : ascii) : byte c = byte d -> c = d.
Proof.
  unfold byte. intros H. apply Nat2Z.inj in H.
  rewrite <- (ascii_nat_embedding c), <- (ascii_nat_embedding d). congruence.
Qed.

Lemma byte_diff (c d : ascii) : Ascii.eqb c d = false -> (byte c - byte d =? 0)%Z = false.
Proof.
  intros H. apply Z.eqb_neq. intros E. apply Ascii.eqb_neq in H. apply H, byte_inj. lia.
Qed.

Lemma byte_zero (c : ascii) : byte c = 0%Z -> c = NUL.
Proof. intros H. apply byte_inj. exact H. Qed.

Lemma not_occurs_tail (needle s : string) (c : ascii) :
  ~ occurs needle (String c s) -> ~ occurs needle s.
Proof. intros H Ho. apply H. now apply occurs_tail. Qed.

Lemma not_nul_head (c : ascii) (s : string) :
  ~ occurs (String NUL "") (String c s) -> c <> NUL.
Proof. intros H ->. apply H. exists "", s. reflexivity. Qed.

(** On C strings [strcmp] returns zero for equal strings only. *)
Lemma strcmp_eq (a b : string) :
  ~ occurs (String NUL "") a -> ~ occurs (String NUL "") b ->
  strcmp a b = 0%Z -> a = b.
Proof.
  revert b; induction a as [|c a IH]; intros [|d b] Ha Hb H; cbn [strcmp] in H.
  - reflexivity.
  - apply not_nul_head in Hb. destruct Hb. apply byte_zero. lia.
  - apply not_nul_head in Ha. destruct Ha. now apply byte_zero.
  - destruct (Ascii.eqb_spec c d) as [->|Hcd].
    + f_equal. apply IH; eauto using not_occurs_tail.
    + destruct Hcd. apply byte_inj. lia.
Qed.

(** Strings equal up to letter case compare equal under [strcasecmp]. *)
Lemma strcasecmp_lower (a b : string) : lower a = lower b -> strcasecmp a b = 0%Z.
Proof.
  revert b; induction a as [|c a IH]; intros [|d b] H; simpl in H; try discriminate.
  - reflexivity.
  - injection H as Hc H. cbn [strcasecmp]. rewrite Hc, Ascii.eqb_refl. now apply IH.
Qed.

Lemma offset_add (s : string) (a b : nat) : offset s (a + b) = offset (offset s a) b.
Proof.
  revert s; induction a as [|a IH]; intros s; [reflexivity|].
  destruct s as [|c s]; simpl; [destruct b; reflexivity|]. apply IH.
Qed.

Lemma strncpy_nil (s : string) (n : nat) : strncpy s n = "" -> n = 0 \/ s = "".
Proof. destruct n, s; simpl; auto; discriminate. Qed.

Lemma strncpy_all (s : string) (n : nat) : String.length s <= n -> strncpy s n = s.
Proof.
  revert s; induction n as [|n IH]; intros [|c s] H; simpl in *; auto; try lia.
  f_equal. apply IH. lia.
Qed.

End StringFacts.
Import StringFacts.

Module RequestParser.

(** The loop's test [strncmp (src, "%20", 3) == 0] asks whether [src]
    starts with [%20]. *)
Lemma strncmp_pct20 (src : string) :
  (strncmp src "%20" 3 =? 0)%Z = true <-> exists r, src = ("%20" ++ r)%string.
Proof.
  assert (Hne : forall c d k, c <> d ->
            ((if Ascii.eqb c d then k else byte c - byte d) =? 0)%Z = true -> False).
  { intros c d k Hcd. destruct (Ascii.eqb c d) eqn:E.
    - apply Ascii.eqb_eq in E. contradiction.
    - rewrite (byte_diff _ _ E). discriminate. }
  destruct src as [|c [|d [|e r]]]; cbn [strncmp]; split;
    try (intros [r' H]; discriminate H);
    try (intros H; vm_compute in H; discriminate H).
  - destruct (ascii_dec c "%") as [->|Hc]; [|intros H; destruct (Hne _ _ _ Hc H)].
    rewrite Ascii.eqb_refl. intros H; vm_compute in H; discriminate H.
  - destruct (ascii_dec c "%") as [->|Hc]; [|intros H; destruct (Hne _ _ _ Hc H)].
    rewrite Ascii.eqb_refl.
    destruct (ascii_dec d "2") as [->|Hd]; [|intros H; destruct (Hne _ _ _ Hd H)].
    rewrite Ascii.eqb_refl. intros H; vm_compute in H; discriminate H.
  - destruct (ascii_dec c "%") as [->|Hc]; [|intros H; destruct (Hne _ _ _ Hc H)].
    rewrite Ascii.eqb_refl.
    destruct (ascii_dec d "2") as [->|Hd]; [|intros H; destruct (Hne _ _ _ Hd H)].
    rewrite Ascii.eqb_refl.
    destruct (ascii_dec e "0") as [->|He]; [|intros H; destruct (Hne _ _ _ He H)].
    intros _. exists r. reflexivity.
  - intros [r' [= -> -> -> ->]]. destruct r'; reflexivity.
Qed.

Lemma url_decode_cons (c : ascii) (rest : string) :
  url_decode (String c rest) =
  if (strncmp (String c rest) "%20" 3 =? 0)%Z
  then String " " (url_decode (offset (String c rest) 3))
  else String c (url_decode rest).
Proof.
  simp url_decode. destruct (strncmp (String c rest) "%20" 3 =? 0)%Z; reflexivity.
Qed.

(** One turn of the loop at an escape, and at any other byte. *)
Lemma url_decode_pct20 (r : string) :
  url_decode ("%20" ++ r) = String " " (url_decode r).
Proof.
  change ("%20" ++ r)%string with (String "%" (String "2" (String "0" r))).
  rewrite url_decode_cons.
  replace (strncmp _ "%20" 3 =? 0)%Z with true; [simpl offset; reflexivity|].
  symmetry. apply strncmp_pct20. exists r. reflexivity.
Qed.

Lemma url_decode_other (c : ascii) (r : string) :
  (forall r', String c r <> ("%20" ++ r')%string) ->
  url_decode (String c r) = String c (url_decode r).
Proof.
  intros H. rewrite url_decode_cons.
  destruct (strncmp (String c r) "%20" 3 =? 0)%Z eqn:E; [|reflexivity].
  apply strncmp_pct20 in E as [r' E]. destruct (H _ E).
Qed.

(** Case analysis on the loop's test. *)
Lemma pct20_dec (s : string) :
  (exists r, s = ("%20" ++ r)%string) \/ (forall r, s <> ("%20" ++ r)%string).
Proof.
  destruct (strncmp s "%20" 3 =? 0)%Z eqn:E.
  - left. now apply strncmp_pct20.
  - right. intros r H. assert (X : (strncmp s "%20" 3 =? 0)%Z = true)
      by (apply strncmp_pct20; eauto). congruence.
Qed.

(** Induction along the loop: the pointer advances by three bytes at an
    escape and by one byte otherwise. *)
Lemma decode_ind (P : string -> Prop) :
  P "" ->
  (forall r, P r -> P ("%20" ++ r)%string) ->
  (forall c r, (forall r', String c r <> ("%20" ++ r')%string) -> P r -> P (String c r)) ->
  forall s, P s.
Proof.
  intros H0 H3 H1 s.
  assert (H : forall n s, String.length s <= n -> P s).
  { clear s. induction n as [|n IH]; intros [|c s] Hl; simpl in Hl; auto; try lia.
    destruct (pct20_dec (String c s)) as [[r E]|E].
    - assert (El : String.length (String c s) = 3 + String.length r)
        by (rewrite E; reflexivity).
      rewrite E. apply H3, IH. simpl in El. lia.
    - apply H1; [exact E|]. apply IH. lia. }
  apply (H (String.length s)). lia.
Qed.

Lemma url_decode_nil : url_decode "" = "".
Proof. now simp url_decode. Qed.

Lemma url_decode_length (s : string) :
  String.length (url_decode s) <= String.length s.
Proof.
  induction s as [|r IH|c r Hc IH] using decode_ind.
  - rewrite url_decode_nil. auto.
  - rewrite url_decode_pct20. simpl. lia.
  - rewrite url_decode_other by exact Hc. simpl. lia.
Qed.

(** A decoded byte other than a space was copied from the source. *)
Lemma url_decode_head (s x : string) (a : ascii) :
  url_decode s = String a x -> a <> " "%char ->
  exists r, s = String a r /\ url_decode r = x /\
            forall r', s <> ("%20" ++ r')%string.
Proof.
  intros H Ha. destruct s as [|c r].
  - rewrite url_decode_nil in H. discriminate.
  - destruct (pct20_dec (String c r)) as [[r' E]|E].
    + rewrite E, url_decode_pct20 in H. congruence.
    + rewrite url_decode_other in H by exact E. injection H as -> <-. eauto.
Qed.

Lemma url_decode_clean (s : string) : ~ occurs "%20" (url_decode s).
Proof.
  induction s as [|r IH|c r Hc IH] using decode_ind.
  - rewrite url_decode_nil. apply not_occurs_empty. discriminate.
  - rewrite url_decode_pct20. intros Ho. apply occurs_cons in Ho as [Ho|Ho]; [|auto].
    apply prefix_iff in Ho as [post Ho]. discriminate.
  - rewrite url_decode_other by exact Hc.
    intros Ho. apply occurs_cons in Ho as [Ho|Ho]; [|auto].
    apply prefix_iff in Ho as [post Ho]. injection Ho as -> Ho.
    apply url_decode_head in Ho as (r2 & -> & Ho & _); [|discriminate].
    apply url_decode_head in Ho as (r3 & -> & _ & _); [|discriminate].
    apply (Hc r3). reflexivity.
Qed.

Lemma not_pct20_segment (c : ascii) (x r : string) :
  ~ occurs "%20" (String c x) ->
  forall r', String c (x ++ "%20" ++ r) <> ("%20" ++ r')%string.
Proof.
  intros Hx r' E. injection E as -> E.
  destruct x as [|d [|e x]]; simpl in E; try discriminate.
  injection E as -> -> _. apply Hx. exists "", x. reflexivity.
Qed.

(** Up to an escape the loop copies, and at the escape it writes a space. *)
Lemma url_decode_segment (x r : string) :
  ~ occurs "%20" x ->
  url_decode (x ++ "%20" ++ r) = (x ++ " " ++ url_decode r)%string.
Proof.
  induction x as [|c x IH]; intros Hx.
  - apply url_decode_pct20.
  - change (String c x ++ "%20" ++ r)%string with (String c (x ++ "%20" ++ r)).
    rewrite url_decode_other by (now apply not_pct20_segment).
    simpl. f_equal. apply IH. intros Ho. apply Hx. now apply occurs_tail.
Qed.

Lemma url_decode_plain (x : string) : ~ occurs "%20" x -> url_decode x = x.
Proof.
  induction x as [|c x IH]; intros Hx.
  - apply url_decode_nil.
  - rewrite url_decode_other.
    + f_equal. apply IH. intros Ho. apply Hx. now apply occurs_tail.
    + intros r' E. apply Hx. exists "", r'. exact E.
Qed.

Lemma url_decode_join (segments : list string) :
  Forall (fun x => ~ occurs "%20" x) segments ->
  url_decode (String.concat "%20" segments) = String.concat " " segments.
Proof.
  induction 1 as [|x [|y l] Hx Hl IH].
  - apply url_decode_nil.
  - now apply url_decode_plain.
  - change (String.concat "%20" (x :: y :: l))
      with (x ++ "%20" ++ String.concat "%20" (y :: l))%string.
    rewrite url_decode_segment by exact Hx. rewrite IH. reflexivity.
Qed.

(** Every string is, in one way, a sequence of escape-free segments
    separated by [%20]. *)
Lemma segments_exist (s : string) :
  exists x l, s = String.concat "%20" (x :: l) /\
              Forall (fun x => ~ occurs "%20" x) (x :: l).
Proof.
  induction s as [|r IH|c r Hc IH] using decode_ind.
  - exists "", []. split; [reflexivity|]. repeat constructor.
    apply not_occurs_empty. discriminate.
  - destruct IH as (x & l & -> & H). exists "", (x :: l). split; [reflexivity|].
    constructor; [|exact H]. apply not_occurs_empty. discriminate.
  - destruct IH as (x & l & -> & H). exists (String c x), l. split.
    + destruct l; reflexivity.
    + inversion H as [|? ? Hx Hl]; subst. constructor; [|exact Hl].
      intros Ho. apply occurs_cons in Ho as [Ho|Ho]; [|auto].
      apply prefix_iff in Ho as [post Ho].
      apply (Hc (post ++ match l with
                         | [] => ""
                         | _ => "%20" ++ String.concat "%20" l
                         end)%string).
      destruct l as [|y l].
      * simpl String.concat. rewrite app_nil_r. exact Ho.
      * change (String.concat "%20" (x :: y :: l))
          with (x ++ "%20" ++ String.concat "%20" (y :: l))%string.
        change (String c (x ++ "%20" ++ String.concat "%20" (y :: l)))
          with (String c x ++ "%20" ++ String.concat "%20" (y :: l))%string.
        rewrite Ho. now rewrite app_assoc.
Qed.

(** What [get_request_path] computes once the first [GET ] is located. *)
Lemma get_request_path_at (request pre post : string) :
  first_occurrence "GET " (c_str request) pre post ->
  get_request_path request =
  match strstr post " " with
  | None => "/"
  | Some path_end =>
      url_decode (strncpy post (if (MAX_PATH_LENGTH <=? path_end)%nat
                                then MAX_PATH_LENGTH - 1 else path_end))
  end.
Proof.
  intros H. unfold get_request_path. rewrite (strstr_first _ _ _ _ H).
  destruct H as [-> _]. rewrite offset_add, offset_app. reflexivity.
Qed.

Lemma byte_first_occurrence (a : ascii) (x rest : string) :
  ~ occurs (String a "") x ->
  first_occurrence (String a "") (x ++ String a rest) x rest.
Proof.
  intros Hx. split; [reflexivity|].
  induction x as [|c x IH]; intros pre' post' E; simpl; [lia|].
  destruct pre' as [|d pre']; simpl in E.
  - injection E as -> _. exfalso. apply Hx. exists "", x. reflexivity.
  - injection E as _ E. apply IH in E; [simpl; lia|].
    intros Ho. apply Hx. now apply occurs_tail.
Qed.

(** C2, as the code has it.  [get_request_path] returns ["/"] for every
    request buffer whose content (the bytes before the first NUL) has no
    occurrence of [GET ] anywhere, or has no space anywhere after its
    first occurrence of [GET ]: the search is over the whole buffer, not
    over its first line. *)
Theorem fallback_to_root (request : string) :
  (~ occurs "GET " (c_str request)) \/
  (exists pre post, first_occurrence "GET " (c_str request) pre post /\
                    ~ occurs " " post) ->
  get_request_path request = "/".
Proof.
  intros [H|(pre & post & H & Hs)].
  - unfold get_request_path. now rewrite (strstr_none _ _ H).
  - rewrite (get_request_path_at _ _ _ H). now rewrite (strstr_none _ _ Hs).
Qed.

Lemma fallback_to_root_witness :
  (exists pre post, first_occurrence "GET " (c_str "GET /index.html") pre post /\
                    ~ occurs " " post) /\
  get_request_path "GET /index.html" = "/".
Proof.
  assert (H : exists pre post,
             first_occurrence "GET " (c_str "GET /index.html") pre post /\
             ~ occurs " " post).
  { exists "", "/index.html". repeat split.
    - intros; simpl; lia.
    - apply strstr_none_sound. reflexivity. }
  split; [exact H|]. apply (fallback_to_root "GET /index.html"). right. exact H.
Defined.

(** C2, as stated, fails: a GET line with no space after the target, in
    a request that has a space further on.  The first line is not a
    well-formed GET request line, and the path returned is not ["/"]: it
    runs on into the next line. *)
Lemma malformed_first_line_not_root :
  first_line Samples.headerless_get = "GET /index.html" /\
  well_formed_get_line (first_line Samples.headerless_get) = false /\
  get_request_path Samples.headerless_get = ("/index.html" ++ CRLF ++ "Host:")%string /\
  get_request_path Samples.headerless_get <> "/".
Proof.
  repeat split; try reflexivity. discriminate.
Qed.

(** C3, as stated, fails: nothing makes the target start with a slash. *)
Lemma request_path_without_slash :
  get_request_path Samples.relative_get = "index.html" /\
  ~ request_path_invariant (get_request_path Samples.relative_get).
Proof.
  split; [reflexivity|]. intros [H _]. discriminate H.
Qed.

(** C3, as the code has it.  For every request buffer the path returned
    by [get_request_path] has no occurrence of [%20] and is at most
    [MAX_PATH_LENGTH - 1] bytes long; it starts with a slash whenever the
    byte after the first [GET ] of the buffer, if there is one, is a
    slash. *)
Theorem request_path_decoded_and_bounded (request : string) :
  ~ occurs "%20" (get_request_path request) /\
  String.length (get_request_path request) <= MAX_PATH_LENGTH - 1 /\
  ((forall pre post, first_occurrence "GET " (c_str request) pre post ->
                     prefix "/" post = true) ->
   prefix "/" (get_request_path request) = true).
Proof.
  assert (Root : ~ occurs "%20" "/").
  { apply strstr_none_sound. reflexivity. }
  destruct (strstr (c_str request) "GET ") as [i|] eqn:Hget.
  - apply strstr_some_sound in Hget as (pre & post & H & _).
    rewrite (get_request_path_at _ _ _ H).
    destruct (strstr post " ") as [path_end|] eqn:Hend.
    + set (path_length := if (MAX_PATH_LENGTH <=? path_end)%nat
                          then MAX_PATH_LENGTH - 1 else path_end).
      assert (Hle : path_length <= MAX_PATH_LENGTH - 1).
      { unfold path_length. destruct (Nat.leb_spec MAX_PATH_LENGTH path_end); lia. }
      split; [apply url_decode_clean|]. split.
      * pose proof (url_decode_length (strncpy post path_length)).
        pose proof (strncpy_length post path_length). lia.
      * intros Hslash. specialize (Hslash _ _ H).
        apply prefix_iff in Hslash as [post' ->].
        assert (Hpos : path_length <> 0).
        { unfold path_length.
          change ("/" ++ post')%string with (String "/" post') in Hend.
          cbn [strstr] in Hend.
          change (prefix " " (String "/" post')) with false in Hend.
          destruct (strstr post' " ") as [n|]; [|discriminate Hend].
          injection Hend as <-.
          destruct (Nat.leb_spec MAX_PATH_LENGTH (S n)); [discriminate|lia]. }
        destruct path_length as [|n]; [congruence|].
        change (strncpy ("/" ++ post') (S n)) with (String "/" (strncpy post' n)).
        rewrite url_decode_other by (intros r' E; discriminate E).
        apply prefix_iff. eexists. reflexivity.
    + repeat split; auto. unfold MAX_PATH_LENGTH. simpl. lia.
  - unfold get_request_path. rewrite Hget.
    repeat split; auto. unfold MAX_PATH_LENGTH. simpl. lia.
Qed.

Lemma request_path_decoded_and_bounded_witness :
  prefix "/" (get_request_path "GET /a%20b HTTP/1.1") = true.
Proof.
  apply (request_path_decoded_and_bounded "GET /a%20b HTTP/1.1").
  intros pre post H. pose proof (strstr_first _ _ _ _ H) as E.
  destruct H as [H _]. destruct pre; [|discriminate E].
  injection H as <-. reflexivity.
Defined.

(** The path of a request [GET <target> <tail>] whose target fits the
    path buffer is the decoded target. *)
Lemma get_request_path_line (target tail : string) :
  ~ occurs " " target ->
  ~ occurs (String NUL "") target ->
  String.length target < MAX_PATH_LENGTH ->
  get_request_path ("GET " ++ target ++ " " ++ tail) = url_decode target.
Proof.
  intros Hsp Hnul Hfit.
  assert (H : first_occurrence "GET " (c_str ("GET " ++ target ++ " " ++ tail))
                "" (target ++ String " " (c_str tail))).
  { split; [|intros; simpl; lia].
    change ("GET " ++ target ++ " " ++ tail)%string
      with (String "G" (String "E" (String "T" (String " " (target ++ " " ++ tail))))).
    cbn [c_str Ascii.eqb NUL Bool.eqb]. rewrite c_str_app by exact Hnul.
    reflexivity. }
  rewrite (get_request_path_at _ _ _ H).
  rewrite (strstr_first _ _ _ _ (byte_first_occurrence " " target _ Hsp)).
  destruct (Nat.leb_spec MAX_PATH_LENGTH (String.length target)); [lia|].
  now rewrite strncpy_app.
Qed.

(** C7.  For a request [GET <target> <tail>] whose target fits the path
    buffer: the target is, in one way, a sequence of segments free of
    [%20] separated by [%20], and the path returned is the same segments
    separated by single spaces.  So each [%20] has become one space, and
    every other byte, other percent escapes included, is where it was. *)
Theorem decodes_every_pct20 (target tail : string) :
  ~ occurs " " target ->
  ~ occurs (String NUL "") target ->
  String.length target < MAX_PATH_LENGTH ->
  (exists x l, target = String.concat "%20" (x :: l) /\
               Forall (fun x => ~ occurs "%20" x) (x :: l)) /\
  (forall segments,
      target = String.concat "%20" segments ->
      Forall (fun x => ~ occurs "%20" x) segments ->
      get_request_path ("GET " ++ target ++ " " ++ tail) =
      String.concat " " segments).
Proof.
  intros Hsp Hnul Hfit. split; [apply segments_exist|].
  intros segments E Hseg. rewrite get_request_path_line by assumption.
  rewrite E. now apply url_decode_join.
Qed.

Lemma decodes_every_pct20_witness :
  get_request_path ("GET " ++ "/my%20file%41.txt" ++ " " ++ "HTTP/1.1") =
  "/my file%41.txt".
Proof.
  refine (proj2 (decodes_every_pct20 "/my%20file%41.txt" "HTTP/1.1" _ _ _)
                ["/my"; "file%41.txt"] eq_refl _).
  - apply strstr_none_sound. reflexivity.
  - apply strstr_none_sound. reflexivity.
  - unfold MAX_PATH_LENGTH. simpl. lia.
  - repeat constructor; apply strstr_none_sound; reflexivity.
Defined.

End RequestParser.

(** ** The static buffer *)

Module StaticBuffer.

Lemma decode_in_place_eq (path : string) (src dst : nat) :
  decode_in_place path src dst =
  if Ascii.eqb (peek path src) NUL then poke path dst NUL
  else if (strncmp (offset path src) "%20" 3 =? 0)%Z
       then decode_in_place (poke path dst " ") (src + 3) (S dst)
       else decode_in_place (poke path dst (peek path src)) (S src) (S dst).
Proof.
  simp decode_in_place. unfold inspect.
  generalize (@eq_refl bool (Ascii.eqb (peek path src) NUL)).
  generalize (Ascii.eqb (peek path src) NUL) at 2 4 5.
  intros [|] running; simp decode_in_place; [reflexivity|].
  destruct (strncmp (offset path src) "%20" 3 =? 0)%Z;
    simp decode_in_place; reflexivity.
Qed.

Lemma peek_offset (buf : string) (i : nat) (c : ascii) (t : string) :
  offset buf i = String c t -> peek buf i = c.
Proof.
  revert buf; induction i as [|i IH]; intros [|d buf] H; simpl in *;
    try discriminate; [congruence|auto].
Qed.

Lemma offset_inside (buf : string) (i : nat) (c : ascii) (t : string) :
  offset buf i = String c t -> i < String.length buf.
Proof.
  intros H. pose proof (offset_length buf i) as L. rewrite H in L. simpl in L. lia.
Qed.

Lemma offset_poke (buf : string) (i n : nat) (c : ascii) :
  i < n -> offset (poke buf i c) n = offset buf n.
Proof.
  revert buf n; induction i as [|i IH]; intros [|d buf] [|n] H; simpl; auto; try lia.
  apply IH. lia.
Qed.

Lemma strncpy_poke (buf : string) (i : nat) (c : ascii) :
  i < String.length buf ->
  strncpy (poke buf i c) (S i) = (strncpy buf i ++ String c "")%string.
Proof.
  revert buf; induction i as [|i IH]; intros [|d buf] H; simpl in *; try lia.
  - destruct buf; reflexivity.
  - f_equal. apply IH. lia.
Qed.

Lemma c_str_poke_nul (buf : string) (i : nat) :
  i < String.length buf ->
  ~ occurs (String NUL "") (strncpy buf i) ->
  c_str (poke buf i NUL) = strncpy buf i.
Proof.
  revert buf; induction i as [|i IH]; intros [|d buf] H Hn; simpl in *; try lia.
  - reflexivity.
  - destruct (Ascii.eqb_spec d NUL) as [->|_].
    + destruct Hn. exists "", (strncpy buf i). reflexivity.
    + f_equal. apply IH; [lia|]. eapply not_occurs_tail; eauto.
Qed.

Lemma not_occurs_snoc (c d : ascii) (s : string) :
  c <> d -> ~ occurs (String c "") s -> ~ occurs (String c "") (s ++ String d "").
Proof.
  intros Hcd Hs. induction s as [|e s IH]; simpl; intros Ho.
  - apply occurs_cons in Ho as [Ho|Ho].
    + apply prefix_iff in Ho as [post Ho]. simpl in Ho. congruence.
    + exact (Hs Ho).
  - apply occurs_cons in Ho as [Ho|Ho].
    + apply prefix_iff in Ho as [post Ho]. simpl in Ho. injection Ho as <- _.
      apply Hs. exists "", s. reflexivity.
    + apply IH; [|exact Ho]. eapply not_occurs_tail; eauto.
Qed.

(** The escape test reads the same in the buffer, where a NUL follows
    the source, as in the source alone. *)
Lemma strncmp_terminated (rest junk : string) :
  (strncmp (rest ++ String NUL junk) "%20" 3 =? 0)%Z = (strncmp rest "%20" 3 =? 0)%Z.
Proof.
  apply Bool.eq_iff_eq_true. rewrite !RequestParser.strncmp_pct20. split.
  - intros [r H]. unfold NUL in H.
    destruct rest as [|a [|b [|c rest]]]; simpl in H; try discriminate H.
    injection H as -> -> -> _. exists rest. reflexivity.
  - intros [r ->]. exists (r ++ String NUL junk)%string. reflexivity.
Qed.

(** The loop invariant: the bytes below [dst] are the output so far, the
    bytes from [src] to the terminator are the source still to decode,
    and [dst] has not overtaken [src]. *)
Lemma decode_in_place_spec (rest : string) :
  forall path src dst junk,
    offset path src = (rest ++ String NUL junk)%string ->
    ~ occurs (String NUL "") rest ->
    ~ occurs (String NUL "") (strncpy path dst) ->
    dst <= src ->
    c_str (decode_in_place path src dst) = (strncpy path dst ++ url_decode rest)%string.
Proof.
  induction rest as [|r IH|c r Hc IH] using RequestParser.decode_ind;
    intros path src dst junk Hsrc Hrest Hout Hle;
    pose proof (offset_inside _ _ _ _ Hsrc) as Hin;
    rewrite decode_in_place_eq, (peek_offset _ _ _ _ Hsrc), Hsrc.
  - rewrite Ascii.eqb_refl, RequestParser.url_decode_nil, app_nil_r.
    apply c_str_poke_nul; [lia|exact Hout].
  - change (Ascii.eqb "%" NUL) with false. cbv iota.
    rewrite strncmp_terminated.
    replace (strncmp ("%20" ++ r) "%20" 3 =? 0)%Z with true
      by (symmetry; apply RequestParser.strncmp_pct20; eauto).
    rewrite (IH _ _ _ junk).
    + rewrite strncpy_poke, RequestParser.url_decode_pct20 by lia.
      now rewrite app_assoc.
    + rewrite offset_poke, offset_add, Hsrc by lia. reflexivity.
    + intros Ho. apply Hrest. now do 3 apply occurs_tail.
    + rewrite strncpy_poke by lia. apply not_occurs_snoc; [discriminate|exact Hout].
    + lia.
  - destruct (Ascii.eqb_spec c NUL) as [->|Hnul].
    { destruct Hrest. exists "", r. reflexivity. }
    rewrite strncmp_terminated.
    replace (strncmp (String c r) "%20" 3 =? 0)%Z with false.
    + rewrite (IH _ _ _ junk).
      * rewrite strncpy_poke, RequestParser.url_decode_other by (lia || exact Hc).
        now rewrite app_assoc.
      * rewrite offset_poke by lia.
        replace (S src) with (src + 1) by lia. rewrite offset_add, Hsrc. reflexivity.
      * eapply not_occurs_tail; eauto.
      * rewrite strncpy_poke by lia. apply not_occurs_snoc; auto.
      * lia.
    + symmetry. apply Bool.not_true_is_false. intros E.
      apply RequestParser.strncmp_pct20 in E as [r' E]. exact (Hc r' E).
Qed.

Lemma strncpy_exact (s : string) (n : nat) :
  n <= String.length s -> String.length (strncpy s n) = n.
Proof.
  revert s; induction n as [|n IH]; intros [|c s] H; simpl in *; auto; try lia.
  f_equal. apply IH. lia.
Qed.

Lemma blit_app (buf s : string) :
  String.length s <= String.length buf ->
  blit buf s = (s ++ offset buf (String.length s))%string.
Proof.
  revert buf; induction s as [|c s IH]; intros [|d buf] H; simpl in *;
    try reflexivity; try lia.
  f_equal. apply IH. lia.
Qed.

Lemma poke_app (a b : string) (d c : ascii) :
  poke (a ++ String d b) (String.length a) c = (a ++ String c b)%string.
Proof. induction a as [|x a IH]; simpl; congruence. Qed.

Lemma not_occurs_strncpy (needle s : string) (n : nat) :
  ~ occurs needle s -> ~ occurs needle (strncpy s n).
Proof.
  intros H Ho. apply H. rewrite <- (strncpy_offset s n). now apply occurs_app_l.
Qed.

Lemma not_occurs_offset (needle s : string) (n : nat) :
  ~ occurs needle s -> ~ occurs needle (offset s n).
Proof.
  intros H Ho. apply H. rewrite <- (strncpy_offset s n). now apply occurs_app_r.
Qed.

(** [get_request_path] is the C string that [get_request_path_static]
    leaves in the buffer, whatever the buffer held before. *)
Lemma get_request_path_static_correct (path request : string) :
  String.length path = MAX_PATH_LENGTH ->
  c_str (get_request_path_static path request) = get_request_path request.
Proof.
  intros Hlen. unfold get_request_path_static, get_request_path.
  assert (Root : c_str (blit path (String "/" (String NUL ""))) = "/").
  { destruct path as [|a [|b path]]; try discriminate Hlen. reflexivity. }
  destruct (strstr (c_str request) "GET ") as [get_pos|]; [|exact Root].
  set (path_start := offset (c_str request) (get_pos + 4)).
  destruct (strstr path_start " ") as [path_end|] eqn:Hend; [|exact Root].
  set (path_length := if (MAX_PATH_LENGTH <=? path_end)%nat
                      then MAX_PATH_LENGTH - 1 else path_end).
  assert (Hle : path_length <= MAX_PATH_LENGTH - 1 /\ path_length <= path_end).
  { unfold path_length. destruct (Nat.leb_spec MAX_PATH_LENGTH path_end); lia. }
  apply strstr_some_sound in Hend as (pre & post & [Hstart _] & Hpre).
  set (copied := strncpy path_start path_length).
  assert (Hcopied : String.length copied = path_length).
  { unfold copied. apply strncpy_exact.
    apply (f_equal String.length) in Hstart. rewrite length_app in Hstart. lia. }
  assert (Hclean : ~ occurs (String NUL "") copied).
  { apply not_occurs_strncpy, not_occurs_offset, c_str_no_nul. }
  rewrite blit_app by lia. rewrite <- Hcopied.
  destruct (offset path (String.length copied)) as [|d tail] eqn:Htail.
  { pose proof (offset_length path (String.length copied)) as L.
    rewrite Htail in L. cbn [String.length] in L.
    assert (0 < MAX_PATH_LENGTH) by (unfold MAX_PATH_LENGTH; lia). lia. }
  rewrite poke_app.
  rewrite (decode_in_place_spec copied _ 0 0 tail); auto.
  apply not_occurs_empty. discriminate.
Qed.

End StaticBuffer.

(** ** Traces *)

Module TraceFacts.

Lemma trace_of_bind {A B} (m : Sys A) (k : A -> Sys B) :
  trace_of (bind m k) = trace_of m ++ trace_of (k (snd m)).
Proof. destruct m as [t a]. simpl. destruct (k a). reflexivity. Qed.

Lemma client_writes_app (t1 t2 : trace) :
  client_writes (t1 ++ t2) = client_writes t1 ++ client_writes t2.
Proof.
  induction t1 as [|e t1 IH]; [reflexivity|].
  destruct e as [| | | | |f got|f data|f|]; simpl; auto.
  destruct f; simpl; congruence.
Qed.

Lemma concat_cons (x : string) (l : list string) :
  String.concat "" (x :: l) = (x ++ String.concat "" l)%string.
Proof. destruct l; simpl; [now rewrite app_nil_r|reflexivity]. Qed.

Lemma concat_app (l1 l2 : list string) :
  String.concat "" (l1 ++ l2) = (String.concat "" l1 ++ String.concat "" l2)%string.
Proof.
  induction l1 as [|x l1 IH]; [reflexivity|].
  change ((x :: l1) ++ l2) with (x :: (l1 ++ l2)).
  now rewrite !concat_cons, IH, app_assoc.
Qed.

Lemma client_output_app (t1 t2 : trace) :
  client_output (t1 ++ t2) = (client_output t1 ++ client_output t2)%string.
Proof. unfold client_output. now rewrite client_writes_app, concat_app. Qed.

Lemma client_output_write (data : string) (t : trace) :
  client_output (EvWrite Client data :: t) = (data ++ client_output t)%string.
Proof. unfold client_output. simpl client_writes. apply concat_cons. Qed.

Lemma trace_of_call {A} (e : event) (r : A) : trace_of (call e r) = [e].
Proof. reflexivity. Qed.

Lemma trace_of_ret {A} (a : A) : trace_of (ret a) = [].
Proof. reflexivity. Qed.

Lemma trace_of_pair {A} (t : trace) (a : A) : trace_of (t, a) = t.
Proof. reflexivity. Qed.

(** Run a computation as far as its system calls are known. *)
Ltac run_sys :=
  repeat first
    [ rewrite trace_of_bind
    | rewrite trace_of_call
    | rewrite trace_of_ret
    | progress cbn [snd fst negb call ret app sys_write sys_close sys_waitpid
                    send_not_found send_server_error] ].

End TraceFacts.
Import TraceFacts.

(** ** The static file server *)

Module StaticFileServer.

Lemma copy_file_eq (size : nat) (rest : string) :
  copy_file size rest =
  match strncpy rest size with
  | "" => call (EvRead FileFd (Some "")) tt
  | chunk =>
      call (EvRead FileFd (Some chunk)) tt ;;
      sys_write Client chunk ;;
      copy_file size (offset rest size)
  end.
Proof.
  simp copy_file. unfold inspect.
  generalize (@eq_refl string (strncpy rest size)).
  generalize (strncpy rest size) at 2 4 5.
  intros chunk got. destruct chunk; simp copy_file; reflexivity.
Qed.

(** The copy loop sends the file, whatever the size of the chunks. *)
Lemma copy_file_output (size : nat) (data : string) :
  0 < size -> client_output (trace_of (copy_file size data)) = data.
Proof.
  intros Hsize.
  assert (H : forall n rest, String.length rest <= n ->
                             client_output (trace_of (copy_file size rest)) = rest).
  { induction n as [|n IH]; intros rest Hn; rewrite copy_file_eq.
    - destruct rest; [|simpl in Hn; lia]. destruct size; reflexivity.
    - destruct (strncpy rest size) as [|c chunk] eqn:E.
      + apply strncpy_nil in E as [->| ->]; [lia|reflexivity].
      + rewrite !trace_of_bind. cbn [trace_of call sys_write fst snd app].
        change (client_output (EvRead FileFd (Some (String c chunk)) :: ?t))
          with (client_output t).
        rewrite client_output_write, IH.
        * rewrite <- E. apply strncpy_offset.
        * assert (strncpy rest size <> "") by (rewrite E; discriminate).
          pose proof (offset_shorter rest size H). lia. }
  apply (H (String.length data)). lia.
Qed.

(** *** The [%ld] conversion *)

Lemma print_digits_length (fuel : nat) (n : Z) (acc : string) :
  String.length (print_digits fuel n acc) <= fuel + String.length acc.
Proof.
  revert n acc; induction fuel as [|fuel IH]; intros n acc; simpl; [lia|].
  destruct (n <? 10)%Z; [simpl; lia|].
  specialize (IH (n / 10)%Z (String (digit_char (n mod 10)) acc)). simpl in IH. lia.
Qed.

Lemma print_ld_length (n : Z) : String.length (print_ld n) <= 20.
Proof.
  unfold print_ld. destruct (n <? 0)%Z.
  - pose proof (print_digits_length 19 (- n) "") as H.
    cbn [String.length] in *. lia.
  - pose proof (print_digits_length 19 n "") as H.
    cbn [String.length] in *. lia.
Qed.

Lemma print_digits_acc (fuel : nat) (n : Z) (acc : string) :
  print_digits fuel n acc = (print_digits fuel n "" ++ acc)%string.
Proof.
  revert n acc; induction fuel as [|fuel IH]; intros n acc; simpl; [reflexivity|].
  destruct (n <? 10)%Z; [reflexivity|].
  rewrite IH, (IH _ (String _ "")), app_assoc. reflexivity.
Qed.

Lemma decimal_value_from_app (acc : Z) (a b : string) :
  decimal_value_from acc (a ++ b) = decimal_value_from (decimal_value_from acc a) b.
Proof. revert acc; induction a as [|c a IH]; intros acc; simpl; auto. Qed.

Lemma digit_char_value (d : Z) : (0 <= d < 10)%Z -> (byte (digit_char d) - 48)%Z = d.
Proof.
  intros H. unfold byte, digit_char. rewrite nat_ascii_embedding by lia. lia.
Qed.

Lemma print_digits_value (fuel : nat) (n : Z) :
  (0 <= n < 10 ^ Z.of_nat fuel)%Z ->
  decimal_value (print_digits fuel n "") = n.
Proof.
  unfold decimal_value. revert n; induction fuel as [|fuel IH]; intros n H.
  - simpl in *. lia.
  - cbn [print_digits]. destruct (Z.ltb_spec n 10) as [Hn|Hn].
    + cbn [decimal_value_from]. rewrite digit_char_value.
      * rewrite Z.mod_small; lia.
      * apply Z.mod_pos_bound. lia.
    + rewrite print_digits_acc, decimal_value_from_app, IH.
      * cbn [decimal_value_from]. rewrite digit_char_value.
        -- pose proof (Z.div_mod n 10). lia.
        -- apply Z.mod_pos_bound. lia.
      * rewrite Nat2Z.inj_succ, Z.pow_succ_r in H by lia.
        split; [apply Z.div_pos; lia|]. apply Z.div_lt_upper_bound; lia.
Qed.

(** Printing a file size and reading the digits back gives the size. *)
Lemma print_ld_value (n : Z) : (0 <= n <= LONG_MAX)%Z -> decimal_value (print_ld n) = n.
Proof.
  intros H. unfold print_ld. destruct (Z.ltb_spec n 0); [lia|].
  apply print_digits_value. unfold LONG_MAX in H.
  change (10 ^ Z.of_nat 19)%Z with 10000000000000000000%Z.
  change (2 ^ 63 - 1)%Z with 9223372036854775807%Z in H. lia.
Qed.

(** *** The headers *)

Lemma content_type_cases (extension : string) :
  In (get_content_type extension)
     ["text/html"; "text/css"; "application/javascript"; "image/jpeg";
      "image/png"; "image/gif"; "text/plain"; "application/octet-stream"].
Proof.
  unfold get_content_type.
  repeat match goal with
         | |- context [if ?b then _ else _] => destruct b
         end; simpl; tauto.
Qed.

Lemma content_type_length (extension : string) :
  String.length (get_content_type extension) <= 24.
Proof.
  pose proof (content_type_cases extension) as H. simpl in H.
  repeat destruct H as [<-|H]; simpl; lia.
Qed.

(** The header buffer is large enough: nothing is cut. *)
Lemma file_headers_eq (content_type : string) (st_size : Z) :
  String.length content_type <= 24 ->
  file_headers content_type st_size =
  response_head "200 OK"
    [ "Content-Type: " ++ content_type;
      "Content-Length: " ++ print_ld st_size;
      "Connection: close" ]%string.
Proof.
  intros Hct. unfold file_headers, snprintf, response_head.
  rewrite strncpy_all.
  - cbn [String.concat map]. rewrite !app_assoc. reflexivity.
  - cbn [String.concat]. rewrite !length_app.
    pose proof (print_ld_length st_size).
    cbn [String.length CRLF]. unfold BUFFER_SIZE. lia.
Qed.

(** *** A file that opens *)

Lemma serve_file_opened (w : world) (file_path : string) (n : node) :
  lookup w file_path = Some n -> may_read n = true -> w_fstat_ok w = true ->
  trace_of (serve_file w file_path) =
  EvOpen file_path true ::
  EvFstat (Some (size_of n)) ::
  EvWrite Client (file_headers (get_content_type (get_file_extension file_path))
                               (size_of n)) ::
  trace_of (copy_node n) ++ [EvClose FileFd].
Proof.
  intros Hl Hr Hs. unfold serve_file, sys_open, sys_fstat. rewrite Hl, Hr, Hs.
  run_sys. reflexivity.
Qed.

(** C6.  A readable regular file of [N] bytes that is served: the first
    buffer written to the client is a 200 head whose [Content-Length]
    header carries the decimal digits of [N], and the buffers written
    after it make up exactly the file's bytes. *)
Theorem static_file_length_and_body (w : world) (file_path data : string) :
  lookup w file_path = Some (Reg data true) ->
  w_fstat_ok w = true ->
  (Z.of_nat (String.length data) <= LONG_MAX)%Z ->
  let N := Z.of_nat (String.length data) in
  exists body,
    client_writes (trace_of (serve_file w file_path)) =
      response_head "200 OK"
        [ "Content-Type: " ++ get_content_type (get_file_extension file_path);
          "Content-Length: " ++ print_ld N;
          "Connection: close" ]%string :: body /\
    decimal_value (print_ld N) = N /\
    String.concat "" body = data /\
    String.length (String.concat "" body) = String.length data.
Proof.
  intros Hl Hs Hmax N.
  exists (client_writes (trace_of (copy_file BUFFER_SIZE data))).
  rewrite (serve_file_opened w file_path _ Hl eq_refl Hs).
  rewrite file_headers_eq by apply content_type_length.
  cbn [client_writes size_of copy_node]. rewrite client_writes_app.
  cbn [client_writes]. rewrite List.app_nil_r.
  assert (Hbody : String.concat "" (client_writes (trace_of (copy_file BUFFER_SIZE data)))
                  = data).
  { apply (copy_file_output BUFFER_SIZE data). unfold BUFFER_SIZE. lia. }
  repeat split.
  - apply print_ld_value. lia.
  - exact Hbody.
  - now rewrite Hbody.
Qed.

Lemma static_file_length_and_body_witness :
  exists body,
    client_writes (trace_of (serve_file Samples.healthy "./www/index.html")) =
      response_head "200 OK"
        [ "Content-Type: text/html"; "Content-Length: 11"; "Connection: close" ]
      :: body /\
    decimal_value "11" = 11%Z /\
    String.concat "" body = "<h1>hi</h1>" /\
    String.length (String.concat "" body) = 11.
Proof.
  apply (static_file_length_and_body Samples.healthy "./www/index.html" "<h1>hi</h1>").
  - reflexivity.
  - reflexivity.
  - vm_compute. discriminate.
Defined.

(** An extension outside the table gets the fallback type. *)
Lemma content_type_fallback (extension : string) :
  ~ occurs (String NUL "") extension ->
  ~ In extension known_extensions ->
  get_content_type extension = "application/octet-stream".
Proof.
  intros Hnul Hout. unfold get_content_type.
  repeat match goal with
         | |- context [(strcmp extension ?k =? 0)%Z] =>
             destruct (Z.eqb_spec (strcmp extension k) 0) as [E|_];
             [ exfalso; apply Hout; apply strcmp_eq in E;
               [ rewrite E; simpl; tauto
               | exact Hnul
               | apply strstr_none_sound; reflexivity ]
             | cbn [orb] ]
         end.
  reflexivity.
Qed.

(** An extension of the table gets a type of its own. *)
Lemma content_type_of_table (extension : string) :
  In extension known_extensions ->
  In (get_content_type extension)
     ["text/html"; "text/css"; "application/javascript"; "image/jpeg";
      "image/png"; "image/gif"; "text/plain"].
Proof.
  intros H. cbn [In known_extensions] in H.
  repeat destruct H as [<-|H]; try contradiction; vm_compute; tauto.
Qed.

(** C10.  The table is searched with [strcmp]: a static file whose
    extension is in the table only up to letter case is sent as
    [application/octet-stream], which is not what [get_content_type] has
    for the extension in lower case: that is a type of the table. *)
Theorem content_type_is_case_sensitive (w : world) (file_path : string) (n : node) :
  let extension := get_file_extension file_path in
  ~ occurs (String NUL "") extension ->
  In (lower extension) known_extensions ->
  ~ In extension known_extensions ->
  lookup w file_path = Some n -> may_read n = true -> w_fstat_ok w = true ->
  get_content_type extension = "application/octet-stream" /\
  In (get_content_type (lower extension))
     ["text/html"; "text/css"; "application/javascript"; "image/jpeg";
      "image/png"; "image/gif"; "text/plain"] /\
  get_content_type (lower extension) <> get_content_type extension /\
  exists body,
    client_writes (trace_of (serve_file w file_path)) =
      response_head "200 OK"
        [ "Content-Type: application/octet-stream";
          "Content-Length: " ++ print_ld (size_of n);
          "Connection: close" ]%string :: body.
Proof.
  intros extension Hnul Hlow Hout Hl Hr Hs.
  pose proof (content_type_fallback extension Hnul Hout) as Hct.
  pose proof (content_type_of_table (lower extension) Hlow) as Htable.
  split; [exact Hct|]. split; [exact Htable|]. split.
  - rewrite Hct. intros E. rewrite E in Htable. cbn [In] in Htable.
    repeat destruct Htable as [Htable|Htable]; try discriminate Htable. exact Htable.
  - rewrite (serve_file_opened w file_path n Hl Hr Hs).
    fold extension. rewrite Hct. rewrite file_headers_eq by (simpl; lia).
    cbn [client_writes]. eauto.
Qed.

Lemma content_type_is_case_sensitive_witness :
  get_content_type "Txt" = "application/octet-stream" /\
  In (get_content_type "txt")
     ["text/html"; "text/css"; "application/javascript"; "image/jpeg";
      "image/png"; "image/gif"; "text/plain"] /\
  get_content_type "txt" <> get_content_type "Txt" /\
  exists body,
    client_writes (trace_of (serve_file Samples.healthy "./www/NOTES.Txt")) =
      response_head "200 OK"
        [ "Content-Type: application/octet-stream";
          "Content-Length: 5";
          "Connection: close" ] :: body.
Proof.
  apply (content_type_is_case_sensitive Samples.healthy "./www/NOTES.Txt"
           (Reg "notes" true)).
  - apply strstr_none_sound. reflexivity.
  - simpl. tauto.
  - simpl. intros H. repeat destruct H as [H|H]; try discriminate H. exact H.
  - reflexivity.
  - reflexivity.
  - reflexivity.
Defined.

End StaticFileServer.

(** ** The script executor *)

Module ScriptExecutor.

Lemma unreaped_from_app (live : list nat) (t1 t2 : trace) :
  unreaped_from live (t1 ++ t2) = unreaped_from (unreaped_from live t1) t2.
Proof.
  revert live; induction t1 as [|e t1 IH]; intros live; [reflexivity|].
  destruct e as [| | | |[pid|]| | | |]; simpl; auto.
Qed.

(** The relay loop: it only reads the pipe and writes to the client, it
    ends with the [read] that reports end-of-stream, and the client gets
    what the child wrote. *)
Lemma relay_pipe_trace (reads : list string) :
  exists relay,
    trace_of (relay_pipe reads) = relay ++ [EvRead PipeRead (Some "")] /\
    Forall relay_event relay /\
    client_output relay = pipe_output reads /\
    (forall live, unreaped_from live relay = live).
Proof.
  induction reads as [|chunk later (relay & Ht & Hev & Hout & Hlive)].
  - exists []. repeat split; auto.
  - destruct chunk as [|c chunk].
    + exists []. repeat split; auto.
    + exists (EvRead PipeRead (Some (String c chunk))
              :: EvWrite Client (String c chunk) :: relay).
      cbn [relay_pipe]. run_sys. rewrite Ht. repeat split.
      * repeat constructor; [..|exact Hev];
          exists (String c chunk); split; auto; discriminate.
      * change (client_output (EvRead PipeRead (Some (String c chunk)) :: ?t))
          with (client_output t).
        rewrite client_output_write, Hout. reflexivity.
      * intros live. simpl. apply Hlive.
Qed.

(** The parent's side of a run in which [pipe] and [fork] succeed. *)
Lemma serve_php_forked (w : world) (file_path : string) (pid : nat) :
  w_pipe_ok w = true -> w_fork w = Some pid ->
  trace_of (serve_php w file_path) =
  [EvPipe true; EvFork (Some pid); EvClose PipeWrite] ++
  [EvWrite Client php_headers] ++
  trace_of (relay_pipe (fst (child w file_path))) ++
  [EvClose PipeRead; EvWaitpid pid (snd (child w file_path))].
Proof.
  intros Hp Hf. unfold serve_php, sys_pipe, sys_fork. rewrite Hp, Hf.
  destruct (child w file_path) as [reads status]. run_sys. reflexivity.
Qed.

(** C9.  When [pipe] and [fork] succeed, the parent's system calls are:
    the set-up, in which nothing is read from the pipe and nothing is
    written to the client; the [write] of the 200 headers; the relay
    loop up to the [read] that reports end-of-stream; [close]; and last
    [waitpid] on the child.  No forked child is left unreaped. *)
Theorem headers_first_and_child_reaped (w : world) (file_path : string) (pid : nat) :
  w_pipe_ok w = true ->
  w_fork w = Some pid ->
  exists setup relay status,
    trace_of (serve_php w file_path) =
      setup ++ [EvWrite Client php_headers] ++ relay ++
      [EvRead PipeRead (Some ""); EvClose PipeRead; EvWaitpid pid status] /\
    (forall got, ~ In (EvRead PipeRead got) setup) /\
    client_writes setup = [] /\
    Forall relay_event relay /\
    unreaped (trace_of (serve_php w file_path)) = [].
Proof.
  intros Hp Hf. rewrite (serve_php_forked w file_path pid Hp Hf).
  destruct (relay_pipe_trace (fst (child w file_path)))
    as (relay & Ht & Hev & _ & Hlive).
  exists [EvPipe true; EvFork (Some pid); EvClose PipeWrite], relay,
         (snd (child w file_path)).
  rewrite Ht. repeat split.
  - now rewrite <- !List.app_assoc.
  - intros got [H|[H|[H|[]]]]; discriminate H.
  - exact Hev.
  - unfold unreaped. rewrite !unreaped_from_app.
    cbn [unreaped_from app]. rewrite Hlive. cbn [unreaped_from remove].
    destruct (Nat.eq_dec pid pid); [reflexivity|congruence].
Qed.

Lemma headers_first_and_child_reaped_witness :
  exists setup relay status,
    trace_of (serve_php Samples.healthy "./www/info.php") =
      setup ++ [EvWrite Client php_headers] ++ relay ++
      [EvRead PipeRead (Some ""); EvClose PipeRead; EvWaitpid 4242 status] /\
    (forall got, ~ In (EvRead PipeRead got) setup) /\
    client_writes setup = [] /\
    Forall relay_event relay /\
    unreaped (trace_of (serve_php Samples.healthy "./www/info.php")) = [].
Proof.
  apply (headers_first_and_child_reaped Samples.healthy "./www/info.php" 4242);
    reflexivity.
Defined.

End ScriptExecutor.

(** ** Paths *)

Module PathFacts.

Lemma split_slash_cons (path : string) :
  exists piece pieces, split_slash path = piece :: pieces.
Proof.
  induction path as [|c path (piece & pieces & IH)]; simpl; eauto.
  destruct (Ascii.eqb c "/"); eauto. rewrite IH. eauto.
Qed.

Lemma split_slash_app (a b : string) :
  split_slash (a ++ String "/" b) = split_slash a ++ split_slash b.
Proof.
  induction a as [|c a IH]; [reflexivity|]. cbn [append split_slash].
  destruct (Ascii.eqb c "/"); rewrite IH; [reflexivity|].
  destruct (split_slash_cons a) as (piece & pieces & ->). reflexivity.
Qed.

Lemma walk_app (w : world) (pieces later : list string) (cur : list string) :
  walk w cur (pieces ++ later) =
  match walk w cur pieces with
  | Some cur' => walk w cur' later
  | None => None
  end.
Proof.
  revert cur. induction pieces as [|piece pieces IH]; intros cur; [reflexivity|].
  cbn [walk app]. destruct (searchable w cur); [|reflexivity].
  destruct (names_something piece); [|apply IH].
  destruct (w_tree w (cur ++ [piece])); [apply IH|reflexivity].
Qed.

(** An empty piece before another piece asks nothing more than that one. *)
Lemma walk_empty_piece (w : world) (cur : list string) (piece : string) (later : list string) :
  walk w cur ("" :: piece :: later) = walk w cur (piece :: later).
Proof.
  cbn [walk]. change (names_something "") with false. cbv iota.
  destruct (searchable w cur); reflexivity.
Qed.

(** A doubled slash names the same file as a single one. *)
Lemma walk_double_slash (w : world) (a b : string) :
  walk w [] (split_slash (a ++ String "/" (String "/" b))) =
  walk w [] (split_slash (a ++ String "/" b)).
Proof.
  rewrite !split_slash_app.
  change (split_slash (String "/" b)) with ("" :: split_slash b).
  rewrite !walk_app. destruct (walk w [] (split_slash a)) as [cur|]; [|reflexivity].
  destruct (split_slash_cons b) as (piece & pieces & ->).
  apply walk_empty_piece.
Qed.

Lemma last_byte_app (a b : string) : b <> "" -> last_byte (a ++ b) = last_byte b.
Proof.
  intros Hb. induction a as [|c a IH]; [reflexivity|].
  cbn [append last_byte]. rewrite IH.
  destruct (a ++ b)%string eqn:E; [|reflexivity].
  destruct a, b; simpl in E; congruence.
Qed.

Lemma last_byte_split (s : string) (c : ascii) :
  last_byte s = Some c -> exists stem, s = (stem ++ String c "")%string.
Proof.
  induction s as [|d s IH]; [discriminate|]. cbn [last_byte].
  destruct s as [|e s].
  - intros [= ->]. exists "". reflexivity.
  - intros H. destruct (IH H) as [stem ->]. exists (String d stem). reflexivity.
Qed.

Lemma lookup_double_slash (w : world) (a b : string) :
  b <> "" ->
  lookup w (a ++ String "/" (String "/" b)) = lookup w (a ++ String "/" b).
Proof.
  intros _. unfold lookup. rewrite walk_double_slash.
  destruct a; reflexivity.
Qed.

(** *** Extensions *)

Lemma strrchr_none (s : string) (c : ascii) :
  ~ occurs (String c "") s -> strrchr s c = None.
Proof.
  induction s as [|d s IH]; intros H; [reflexivity|]. cbn [strrchr].
  rewrite IH by (eapply not_occurs_tail; eauto).
  destruct (Ascii.eqb_spec d c) as [->|_]; [|reflexivity].
  destruct H. exists "", s. reflexivity.
Qed.

Lemma strrchr_last (a e : string) (c : ascii) :
  ~ occurs (String c "") e ->
  strrchr (a ++ String c e) c = Some (String.length a).
Proof.
  intros He. induction a as [|d a IH].
  - cbn [append strrchr]. rewrite (strrchr_none _ _ He), Ascii.eqb_refl. reflexivity.
  - cbn [append strrchr]. rewrite IH. reflexivity.
Qed.

(** The extension of [stem.e], for a non-empty stem and [e] without dot. *)
Lemma extension_of (stem e : string) :
  stem <> "" -> ~ occurs "." e ->
  get_file_extension (stem ++ String "." e) = e.
Proof.
  intros Hs He. unfold get_file_extension. rewrite (strrchr_last _ _ _ He).
  destruct stem as [|c stem]; [congruence|]. cbn [String.length].
  replace (S (String.length stem) + 1) with (String.length (String c stem) + 1)
    by reflexivity.
  rewrite offset_add, offset_app. reflexivity.
Qed.

Lemma lower_occurs_dot (e : string) : occurs "." e -> occurs "." (lower e).
Proof.
  intros (pre & post & ->). exists (lower pre), (lower post).
  induction pre as [|c pre IH]; simpl in *; [reflexivity|]. congruence.
Qed.

End PathFacts.
Import PathFacts.

(** ** The path resolver *)

Module PathResolver.

(** [snprintf] of two strings that fit. *)
Lemma snprintf_fits (size : nat) (a b : string) :
  String.length (a ++ b) < size -> snprintf size [a; b] = (a ++ b)%string.
Proof.
  intros H. unfold snprintf. cbn [String.concat].
  change ("" ++ b)%string with b. apply strncpy_all. lia.
Qed.

Lemma sys_stat_eq (w : world) (path : string) :
  sys_stat w path = ([EvStat path (exists_in w path)], exists_in w path).
Proof. reflexivity. Qed.

(** C5, as the code has it.  For a request path that ends in a slash and
    is short enough for [./www], the path and [/index.html] to fit the
    path buffer: [resolve] asks for [index.html] under document root and
    path first and chooses the static file server if it is there, asks
    for [index.php] only otherwise and chooses the script executor if
    that is there, and otherwise answers 404.  The names it builds have a
    doubled slash, which names the same file. *)
Theorem directory_index_order (w : world) (request_path : string) :
  last_byte request_path = Some "/"%char ->
  String.length (WWW_DIRECTORY ++ request_path ++ "/index.html") < MAX_PATH_LENGTH ->
  let html := (WWW_DIRECTORY ++ request_path ++ "/index.html")%string in
  let php := (WWW_DIRECTORY ++ request_path ++ "/index.php")%string in
  exists_in w html = exists_in w (WWW_DIRECTORY ++ request_path ++ "index.html") /\
  exists_in w php = exists_in w (WWW_DIRECTORY ++ request_path ++ "index.php") /\
  resolve w request_path =
  Some (if exists_in w html then ([EvStat html true], StaticFile html)
        else if exists_in w php then ([EvStat html false; EvStat php true], ScriptFile php)
        else ([EvStat html false; EvStat php false], NotFound)).
Proof.
  intros Hlast Hfit html php.
  assert (Hlen : String.length request_path + 16 < MAX_PATH_LENGTH).
  { rewrite !length_app in Hfit. simpl in Hfit. lia. }
  split; [|split].
  - apply last_byte_split in Hlast as [stem ->]. unfold exists_in, html.
    rewrite !app_assoc, <- (app_assoc WWW_DIRECTORY stem).
    cbn [append]. now rewrite lookup_double_slash.
  - apply last_byte_split in Hlast as [stem ->]. unfold exists_in, php.
    rewrite !app_assoc, <- (app_assoc WWW_DIRECTORY stem).
    cbn [append]. now rewrite lookup_double_slash.
  - unfold resolve. rewrite Hlast. rewrite Ascii.eqb_refl.
    rewrite (snprintf_fits _ WWW_DIRECTORY request_path)
      by (rewrite length_app; simpl; lia).
    rewrite !snprintf_fits by (rewrite !length_app; simpl; lia).
    rewrite !app_assoc. fold html php. unfold file_exists.
    rewrite !sys_stat_eq. cbn [bind ret].
    destruct (exists_in w html); [reflexivity|].
    cbn [bind ret]. destruct (exists_in w php); reflexivity.
Qed.

Lemma directory_index_order_witness :
  resolve Samples.healthy "/" =
  Some ([EvStat "./www//index.html" true], StaticFile "./www//index.html").
Proof.
  refine (proj2 (proj2 (directory_index_order Samples.healthy "/" _ _))).
  - reflexivity.
  - unfold MAX_PATH_LENGTH. simpl. lia.
Defined.

(** C5, as stated, fails for a long path: the names of the index files
    are cut to the size of the path buffer.  Here neither [index.html]
    nor [index.php] is in the directory, so the resolution the
    specification describes is NotFound; the server asks for the cut
    name [index], finds it, and sends that file with status 200. *)
Lemma directory_index_cut_short :
  last_byte Samples.deep_path = Some "/"%char /\
  get_request_path ("GET " ++ Samples.deep_path ++ " HTTP/1.1") = Samples.deep_path /\
  resolve_directory_spec Samples.deep Samples.deep_path = NotFound /\
  decision (resolve Samples.deep Samples.deep_path) =
    Some (StaticFile ("./www" ++ Samples.deep_path ++ "/index")) /\
  exists t,
    handle_client Samples.deep (Some ("GET " ++ Samples.deep_path ++ " HTTP/1.1")%string)
      = Defined t /\
    prefix "HTTP/1.1 200 OK" (client_output t) = true.
Proof.
  repeat split; try (vm_compute; reflexivity).
  eexists. split; vm_compute; reflexivity.
Qed.

(** *** Requests for a file *)

Lemma lower_php_no_dot (e : string) : lower e = "php" -> ~ occurs "." e.
Proof.
  intros H Ho. apply lower_occurs_dot in Ho. rewrite H in Ho.
  revert Ho. apply strstr_none_sound. reflexivity.
Qed.

(** What [resolve] does for a path that does not end in a slash and
    fits the path buffer. *)
Lemma resolve_file (w : world) (request_path : string) (last : ascii) :
  last_byte request_path = Some last ->
  last <> "/"%char ->
  String.length (WWW_DIRECTORY ++ request_path) < MAX_PATH_LENGTH ->
  let file_path := (WWW_DIRECTORY ++ request_path)%string in
  resolve w request_path =
    Some ([EvStat file_path (exists_in w file_path)],
          if exists_in w file_path then
            if (strcasecmp (get_file_extension file_path) "php" =? 0)%Z
            then ScriptFile file_path else StaticFile file_path
          else NotFound).
Proof.
  intros Hlast Hnot Hfit file_path. unfold resolve. rewrite Hlast.
  destruct (Ascii.eqb_spec last "/") as [E|_]; [contradiction|].
  rewrite (snprintf_fits _ WWW_DIRECTORY request_path) by exact Hfit.
  fold file_path. unfold file_exists. rewrite sys_stat_eq. cbn [bind ret].
  destruct (exists_in w file_path); [|reflexivity].
  destruct (strcasecmp (get_file_extension file_path) "php" =? 0)%Z; reflexivity.
Qed.

(** C8, as the code has it.  For a request path that does not end in a
    slash, is short enough for [./www] and the path to fit the path
    buffer, and names an existing file: [resolve] chooses the script
    executor exactly when [strcasecmp] finds the extension of the file
    path equal to [php]; in particular it does for a path that ends in a
    dot and [php] in any letter case. *)
Theorem script_by_extension (w : world) (request_path : string) (last : ascii) :
  last_byte request_path = Some last ->
  last <> "/"%char ->
  String.length (WWW_DIRECTORY ++ request_path) < MAX_PATH_LENGTH ->
  exists_in w (WWW_DIRECTORY ++ request_path) = true ->
  let file_path := (WWW_DIRECTORY ++ request_path)%string in
  resolve w request_path =
    Some ([EvStat file_path true],
          if (strcasecmp (get_file_extension file_path) "php" =? 0)%Z
          then ScriptFile file_path else StaticFile file_path) /\
  forall stem e,
    request_path = (stem ++ "." ++ e)%string -> lower e = "php" ->
    resolve w request_path = Some ([EvStat file_path true], ScriptFile file_path) /\
    respond w (ScriptFile file_path) = serve_php w file_path.
Proof.
  intros Hlast Hnot Hfit Hex file_path.
  pose proof (resolve_file w request_path last Hlast Hnot Hfit) as Hres.
  cbv zeta in Hres. rewrite Hex in Hres. fold file_path in Hres.
  split; [exact Hres|].
  intros stem e -> He. split; [|reflexivity].
  rewrite Hres. unfold file_path.
  rewrite <- app_assoc. change ("." ++ e)%string with (String "." e).
  rewrite extension_of by (discriminate || now apply lower_php_no_dot).
  now rewrite (strcasecmp_lower e "php") by exact He.
Qed.

Lemma script_by_extension_witness :
  resolve Samples.healthy "/page.PHP" =
    Some ([EvStat "./www/page.PHP" true], ScriptFile "./www/page.PHP") /\
  respond Samples.healthy (ScriptFile "./www/page.PHP") =
    serve_php Samples.healthy "./www/page.PHP".
Proof.
  refine (proj2 (script_by_extension Samples.healthy "/page.PHP" "P" _ _ _ _)
                "/page" "PHP" eq_refl eq_refl).
  - reflexivity.
  - discriminate.
  - unfold MAX_PATH_LENGTH. simpl. lia.
  - reflexivity.
Defined.

(** C8, as stated, fails for a long path: the file path is cut to the
    size of the path buffer, extension included.  The script exists, and
    so does the file the cut path names; the server sends the latter as
    a static file. *)
Lemma script_extension_cut_off :
  Samples.long_path = ("/" ++ Samples.run "a" 250 ++ "." ++ "PHP")%string /\
  get_request_path ("GET " ++ Samples.long_path ++ " HTTP/1.1") = Samples.long_path /\
  exists_in Samples.long ("./www" ++ Samples.long_path) = true /\
  decision (resolve Samples.long Samples.long_path) =
    Some (StaticFile ("./www/" ++ Samples.run "a" 249)) /\
  exists t,
    handle_client Samples.long (Some ("GET " ++ Samples.long_path ++ " HTTP/1.1")%string)
      = Defined t /\
    client_output t =
      (response_head "200 OK"
         [ "Content-Type: application/octet-stream";
           "Content-Length: 5";
           "Connection: close" ] ++ "plain")%string.
Proof.
  repeat split; try (vm_compute; reflexivity).
  eexists. split; vm_compute; reflexivity.
Qed.

End PathResolver.

(** ** The dispatcher *)

Module Dispatcher.

Lemma strncpy_app_l (a b : string) (n : nat) :
  String.length a <= n ->
  strncpy (a ++ b) n = (a ++ strncpy b (n - String.length a))%string.
Proof.
  revert n; induction a as [|c a IH]; intros n H.
  - simpl. now rewrite Nat.sub_0_r.
  - destruct n as [|n]; simpl in *; [lia|]. rewrite IH by lia. reflexivity.
Qed.

(** A request that is read: parse, resolve, respond, close. *)
Lemma handle_client_read (w : world) (sent : string) (c : ascii) (buffer : string) :
  strncpy sent (BUFFER_SIZE - 1) = String c buffer ->
  handle_client w (Some sent) =
  match resolve w (get_request_path (String c buffer)) with
  | None => Undefined
  | Some resolution =>
      Defined (EvRead Client (Some (String c buffer)) ::
               trace_of (t <- resolution ;; respond w t ;; sys_close Client))
  end.
Proof.
  intros H. unfold handle_client. cbn [option_map]. rewrite H. reflexivity.
Qed.

(** [resolve] only asks whether files exist. *)
Lemma resolve_writes (w : world) (request_path : string) (r : Sys target) :
  resolve w request_path = Some r ->
  client_writes (trace_of r) = [] /\ forall chunk, ~ relayed (trace_of r) chunk.
Proof.
  unfold resolve. destruct (last_byte request_path) as [last|]; [|discriminate].
  unfold file_exists. rewrite !PathResolver.sys_stat_eq.
  destruct (Ascii.eqb last "/"); intros [= <-]; cbn [bind ret].
  - destruct (exists_in w _); cbn [bind ret].
    + split; [reflexivity|]. intros chunk [[H|[]]|[H|[]]]; discriminate H.
    + destruct (exists_in w _); (split; [reflexivity|]);
        intros chunk [[H|[H|[]]]|[H|[H|[]]]]; discriminate H.
  - destruct (exists_in w _);
      [destruct (strcasecmp _ "php" =? 0)%Z|];
      (split; [reflexivity|]); intros chunk [[H|[]]|[H|[]]]; discriminate H.
Qed.

Lemma exchange_writes (f : fd) (chunks : list string) :
  client_writes (exchange f chunks) = chunks.
Proof. induction chunks as [|c chunks IH]; simpl; congruence. Qed.

Lemma exchange_reads (f : fd) (chunks : list string) (chunk : string) :
  In chunk chunks -> In (EvRead f (Some chunk)) (exchange f chunks).
Proof.
  induction chunks as [|c chunks IH]; simpl; [auto|].
  intros [->|H]; auto.
Qed.

Lemma copy_file_shape (size : nat) (data : string) :
  exists chunks,
    trace_of (copy_file size data) = exchange FileFd chunks ++ [EvRead FileFd (Some "")].
Proof.
  assert (H : forall n rest, String.length rest <= n ->
            exists chunks, trace_of (copy_file size rest) =
                           exchange FileFd chunks ++ [EvRead FileFd (Some "")]).
  { induction n as [|n IH]; intros rest Hn; rewrite StaticFileServer.copy_file_eq.
    - destruct rest; [|simpl in Hn; lia]. exists []. destruct size; reflexivity.
    - destruct (strncpy rest size) as [|c chunk] eqn:E; [exists []; reflexivity|].
      destruct (IH (offset rest size)) as [chunks Hc].
      + assert (X : strncpy rest size <> "") by (rewrite E; discriminate).
        pose proof (offset_shorter rest size X). lia.
      + exists (String c chunk :: chunks). run_sys. rewrite Hc. reflexivity. }
  apply (H (String.length data)). lia.
Qed.

Lemma relay_pipe_shape (reads : list string) :
  exists chunks,
    trace_of (relay_pipe reads) = exchange PipeRead chunks ++ [EvRead PipeRead (Some "")].
Proof.
  induction reads as [|[|c chunk] later [chunks IH]];
    [exists []; reflexivity | exists []; reflexivity |].
  exists (String c chunk :: chunks). cbn [relay_pipe]. run_sys. rewrite IH. reflexivity.
Qed.

Lemma relayed_app (t1 t2 : trace) (chunk : string) :
  relayed t1 chunk \/ relayed t2 chunk -> relayed (t1 ++ t2) chunk.
Proof.
  unfold relayed. rewrite !in_app_iff. tauto.
Qed.

Lemma relayed_cons (e : event) (t : trace) (chunk : string) :
  relayed t chunk -> relayed (e :: t) chunk.
Proof. unfold relayed. simpl. tauto. Qed.

(** The head of a script response. *)
Lemma php_head : php_headers = response_head "200 OK" close_headers.
Proof. reflexivity. Qed.

(** *** Bytes of a head *)

Lemma all_bytes_app (p : ascii -> bool) (a b : string) :
  all_bytes p (a ++ b) = all_bytes p a && all_bytes p b.
Proof.
  induction a as [|c a IH]; [reflexivity|]. cbn [append all_bytes].
  now rewrite IH, andb_assoc.
Qed.

Lemma all_bytes_weaken (p q : ascii -> bool) (s : string) :
  (forall c, p c = true -> q c = true) ->
  all_bytes p s = true -> all_bytes q s = true.
Proof.
  intros Hpq. induction s as [|c s IH]; [reflexivity|]. cbn [all_bytes].
  intros [Hc Hs]%andb_prop. rewrite (Hpq c Hc). exact (IH Hs).
Qed.

(** A string without the first byte of [needle] does not hold [needle]. *)
Lemma absent_not_occurs (a : ascii) (needle s : string) :
  absent a s = true -> ~ occurs (String a needle) s.
Proof.
  intros H (pre & post & ->). unfold absent in H.
  rewrite all_bytes_app in H. apply andb_prop in H as [_ H].
  cbn [append all_bytes] in H. rewrite Ascii.eqb_refl in H. discriminate H.
Qed.

Lemma status_count_none (s : string) : absent "H" s = true -> status_count s = 0.
Proof.
  induction s as [|c s IH]; [reflexivity|]. unfold absent. cbn [all_bytes].
  intros [Hc Hs]%andb_prop. cbn [status_count]. rewrite (IH Hs).
  replace (prefix "HTTP/1.1 " (String c s)) with false; [reflexivity|].
  cbn [prefix]. destruct (ascii_dec "H" c) as [<-|_]; [discriminate Hc|reflexivity].
Qed.

(** What follows the version holds no other. *)
Lemma status_count_head (rest : string) :
  absent "H" rest = true -> status_count ("HTTP/1.1 " ++ rest) = 1.
Proof.
  intros H.
  change ("HTTP/1.1 " ++ rest)%string with (String "H" ("TTP/1.1 " ++ rest)).
  cbn [status_count].
  replace (prefix "HTTP/1.1 " (String "H" ("TTP/1.1 " ++ rest))) with true
    by (symmetry; apply prefix_iff; exists rest; reflexivity).
  rewrite status_count_none; [reflexivity|].
  unfold absent. rewrite all_bytes_app. apply andb_true_intro. split; [reflexivity|exact H].
Qed.

Lemma absent_header_lines (a : ascii) (headers : list string) :
  absent a CRLF = true ->
  Forall (fun h => absent a h = true) headers ->
  absent a (String.concat "" (map (fun h => (h ++ CRLF)%string) headers)) = true.
Proof.
  intros Hcrlf. induction 1 as [|h headers Hh _ IH]; [reflexivity|].
  cbn [map]. destruct (map (fun h => (h ++ CRLF)%string) headers) as [|h' rest] eqn:E.
  - cbn [String.concat]. unfold absent in *. rewrite all_bytes_app, Hh. exact Hcrlf.
  - cbn [String.concat] in *. unfold absent in *.
    rewrite !all_bytes_app, Hh, Hcrlf. exact IH.
Qed.

Lemma status_count_response (status : string) (headers : list string) (page : string) :
  absent "H" status = true ->
  Forall (fun h => absent "H" h = true) headers ->
  absent "H" page = true ->
  status_count (response_head status headers ++ page) = 1.
Proof.
  intros Hs Hh Hp. unfold response_head. rewrite <- !app_assoc.
  apply status_count_head. unfold absent. rewrite !all_bytes_app.
  pose proof (absent_header_lines "H" headers eq_refl Hh) as Hc.
  unfold absent in *. rewrite Hs, Hc, Hp. reflexivity.
Qed.

Lemma digit_char_digit (n : Z) : digit_or_minus (digit_char (n mod 10)) = true.
Proof.
  pose proof (Z.mod_pos_bound n 10 eq_refl) as H.
  assert (E : (n mod 10 = 0 \/ n mod 10 = 1 \/ n mod 10 = 2 \/ n mod 10 = 3 \/
               n mod 10 = 4 \/ n mod 10 = 5 \/ n mod 10 = 6 \/ n mod 10 = 7 \/
               n mod 10 = 8 \/ n mod 10 = 9)%Z) by lia.
  repeat destruct E as [->|E]; try reflexivity. rewrite E. reflexivity.
Qed.

Lemma print_digits_bytes (fuel : nat) (n : Z) (acc : string) :
  all_bytes digit_or_minus acc = true ->
  all_bytes digit_or_minus (print_digits fuel n acc) = true.
Proof.
  revert n acc. induction fuel as [|fuel IH]; intros n acc Hacc; [exact Hacc|].
  cbn [print_digits].
  assert (Hacc' : all_bytes digit_or_minus (String (digit_char (n mod 10)) acc) = true)
    by (cbn [all_bytes]; now rewrite digit_char_digit, Hacc).
  destruct (n <? 10)%Z; [exact Hacc'|]. now apply IH.
Qed.

(** [%ld] prints digits, after a sign. *)
Lemma print_ld_bytes (n : Z) : all_bytes digit_or_minus (print_ld n) = true.
Proof.
  unfold print_ld. destruct (n <? 0)%Z.
  - cbn [all_bytes]. now rewrite print_digits_bytes.
  - now apply print_digits_bytes.
Qed.

Lemma print_ld_absent (a : ascii) (n : Z) :
  digit_or_minus a = false -> absent a (print_ld n) = true.
Proof.
  intros Ha. apply (all_bytes_weaken digit_or_minus); [|apply print_ld_bytes].
  intros c Hc. destruct (Ascii.eqb_spec c a) as [->|_]; [congruence|reflexivity].
Qed.

(** *** One response on every path *)

Lemma error_headers_lines : Forall header_line close_headers.
Proof.
  repeat constructor; try discriminate;
    apply (absent_not_occurs CR (String LF "")); reflexivity.
Qed.

Lemma one_response_not_found (pre : trace) :
  client_writes pre = [] -> one_response (pre ++ trace_of send_not_found).
Proof.
  intros H. exists "404 Not Found", close_headers, not_found_page, [].
  rewrite client_writes_app, H.
  repeat split; simpl; auto using error_headers_lines.
Qed.

Lemma one_response_server_error (pre : trace) :
  client_writes pre = [] -> one_response (pre ++ trace_of send_server_error).
Proof.
  intros H. exists "500 Internal Server Error", close_headers, server_error_page, [].
  rewrite client_writes_app, H.
  repeat split; simpl; auto using error_headers_lines.
Qed.

(** The head of a file: three header lines, and one status line. *)
Lemma file_head_lines (extension : string) (st_size : Z) :
  let headers := [ "Content-Type: " ++ get_content_type extension;
                   "Content-Length: " ++ print_ld st_size;
                   "Connection: close" ]%string in
  Forall header_line headers /\
  status_count (response_head "200 OK" headers ++ "") = 1.
Proof.
  intros headers.
  assert (Hbytes : forall a, digit_or_minus a = false ->
            absent a "Content-Type: Content-Length: Connection: close" = true ->
            absent a "text/html text/css application/javascript image/jpeg" = true ->
            absent a "image/png image/gif text/plain application/octet-stream" = true ->
            Forall (fun h => absent a h = true) headers).
  { intros a Hd Hnames Ht1 Ht2.
    assert (Hct : absent a (get_content_type extension) = true).
    { pose proof (StaticFileServer.content_type_cases extension) as H. cbn [In] in H.
      unfold absent in *. cbn [all_bytes] in Hnames, Ht1, Ht2.
      repeat (apply andb_prop in Ht1 as [? Ht1]).
      repeat (apply andb_prop in Ht2 as [? Ht2]).
      repeat destruct H as [<-|H]; try contradiction; cbn [all_bytes];
        repeat (apply andb_true_intro; split); try assumption; reflexivity. }
    unfold absent in *. cbn [all_bytes] in Hnames.
    repeat (apply andb_prop in Hnames as [? Hnames]).
    repeat constructor; rewrite ?all_bytes_app; cbn [all_bytes];
      repeat (apply andb_true_intro; split);
      try assumption; try reflexivity.
    apply (print_ld_absent a st_size Hd). }
  split.
  - pose proof (Hbytes CR eq_refl eq_refl eq_refl eq_refl) as H.
    inversion H as [|h1 l1 H1 H']; subst. inversion H' as [|h2 l2 H2 H'']; subst.
    inversion H'' as [|h3 l3 H3 _]; subst.
    repeat constructor; try discriminate;
      try (apply (absent_not_occurs CR (String LF "")); assumption).
  - apply status_count_response; [reflexivity| |reflexivity].
    apply (Hbytes "H"%char); reflexivity.
Qed.

Lemma one_response_serve_file (w : world) (file_path : string) :
  one_response (trace_of (serve_file w file_path)).
Proof.
  destruct (lookup w file_path) as [n|] eqn:Hl.
  - destruct (may_read n) eqn:Hr.
    + destruct (w_fstat_ok w) eqn:Hs.
      * rewrite (StaticFileServer.serve_file_opened w file_path n Hl Hr Hs).
        rewrite StaticFileServer.file_headers_eq
          by apply StaticFileServer.content_type_length.
        assert (Hb : exists chunks,
                   client_writes (trace_of (copy_node n)) = chunks /\
                   Forall (relayed (trace_of (copy_node n))) chunks).
        { destruct n as [data r|size r]; cbn [copy_node].
          - destruct (copy_file_shape BUFFER_SIZE data) as [chunks ->].
            exists chunks. rewrite client_writes_app, exchange_writes.
            split; [apply List.app_nil_r|]. apply Forall_forall. intros c Hc.
            left. apply in_app_iff. left. now apply exchange_reads.
          - exists []. split; [reflexivity|constructor]. }
        destruct Hb as (chunks & Hw & Hrel).
        destruct (file_head_lines (get_file_extension file_path) (size_of n))
          as [Hlines Hone].
        eexists "200 OK", _, "", chunks. cbn [client_writes].
        rewrite client_writes_app, Hw. cbn [client_writes].
        rewrite List.app_nil_r.
        split; [now rewrite app_nil_r|].
        split; [simpl; auto|]. split; [exact Hlines|].
        split; [simpl; auto|]. split; [simpl; auto|]. split; [exact Hone|].
        eapply Forall_impl; [|exact Hrel]. intros c Hc.
        do 3 apply relayed_cons. apply relayed_app. now left.
      * unfold serve_file, sys_open, sys_fstat. rewrite Hl, Hr, Hs. run_sys.
        apply (one_response_server_error
                 [EvOpen file_path true; EvFstat None; EvClose FileFd]).
        reflexivity.
    + unfold serve_file, sys_open. rewrite Hl, Hr. run_sys.
      apply (one_response_not_found [EvOpen file_path false]). reflexivity.
  - unfold serve_file, sys_open. rewrite Hl. run_sys.
    apply (one_response_not_found [EvOpen file_path false]). reflexivity.
Qed.

Lemma one_response_serve_php (w : world) (file_path : string) :
  one_response (trace_of (serve_php w file_path)).
Proof.
  destruct (w_pipe_ok w) eqn:Hp.
  - destruct (w_fork w) as [pid|] eqn:Hf.
    + rewrite (ScriptExecutor.serve_php_forked w file_path pid Hp Hf).
      destruct (relay_pipe_shape (fst (child w file_path))) as [chunks ->].
      exists "200 OK", close_headers, "", chunks. cbn [app client_writes].
      rewrite !client_writes_app, exchange_writes. cbn [client_writes].
      rewrite !List.app_nil_r, app_nil_r, php_head.
      repeat split; simpl; auto using error_headers_lines.
      apply Forall_forall. intros c Hc. right.
      do 4 right. rewrite !in_app_iff. left. left. now apply exchange_reads.
    + unfold serve_php, sys_pipe, sys_fork. rewrite Hp, Hf. run_sys.
      apply (one_response_server_error
               [EvPipe true; EvFork None; EvClose PipeRead; EvClose PipeWrite]).
      reflexivity.
  - unfold serve_php, sys_pipe. rewrite Hp. run_sys.
    apply (one_response_server_error [EvPipe false]). reflexivity.
Qed.

Lemma one_response_respond (w : world) (tg : target) :
  one_response (trace_of (respond w tg)).
Proof.
  destruct tg; cbn [respond].
  - apply one_response_serve_file.
  - apply one_response_serve_php.
  - apply (one_response_not_found []). reflexivity.
Qed.

(** Events that write nothing to the client, before and after. *)
Lemma one_response_framed (pre t post : trace) :
  client_writes pre = [] -> client_writes post = [] ->
  one_response t -> one_response (pre ++ t ++ post).
Proof.
  intros Hpre Hpost
    (status & headers & page & body & Hw & Hs & Hl & Hc & Hpg & Hone & Hrel).
  exists status, headers, page, body.
  rewrite !client_writes_app, Hpre, Hpost, Hw, List.app_nil_r.
  repeat split; auto; try apply Hl.
  eapply Forall_impl; [|exact Hrel]. intros c Hcr.
  apply relayed_app. right. apply relayed_app. now left.
Qed.

(** C4.  A connection on which nothing could be read is closed without
    a response.  On every other connection that [handle_client] handles,
    the first buffer written to the client is one head and its page: a
    status line that is [200 OK], [404 Not Found] or [500 Internal Server
    Error], header lines among which is [Connection: close], the empty
    line, and nothing or an error page; a status line starts nowhere else
    in that buffer; and every buffer written after it was read from the
    file or from the pipe. *)
Theorem one_status_line_per_connection
  (w : world) (incoming : option string) (t : trace) :
  handle_client w incoming = Defined t ->
  (client_writes t = [] /\ (incoming = None \/ incoming = Some "")) \/
  one_response t.
Proof.
  destruct incoming as [[|c sent]|].
  - intros [= <-]. left. auto.
  - assert (E : strncpy (String c sent) (BUFFER_SIZE - 1) = String c (strncpy sent 4094))
      by reflexivity.
    revert E. generalize (strncpy sent 4094). intros buffer E.
    rewrite (handle_client_read w _ c buffer E).
    destruct (resolve w _) as [r|] eqn:Hr; [|discriminate].
    intros [= <-]. right. apply resolve_writes in Hr as [Hr _].
    rewrite !trace_of_bind.
    apply (one_response_framed (EvRead Client (Some (String c buffer)) :: trace_of r)
             (trace_of (respond w (snd r))) [EvClose Client]);
      [exact Hr | reflexivity |].
    apply one_response_respond.
  - intros [= <-]. left. auto.
Qed.

Lemma one_status_line_per_connection_witness :
  exists t,
    handle_client Samples.healthy (Samples.request "GET / HTTP/1.1") = Defined t /\
    ((client_writes t = [] /\
      (Samples.request "GET / HTTP/1.1" = None \/
       Samples.request "GET / HTTP/1.1" = Some "")) \/
     one_response t).
Proof.
  eexists. split; [vm_compute; reflexivity|].
  apply (one_status_line_per_connection
           Samples.healthy (Samples.request "GET / HTTP/1.1")).
  vm_compute. reflexivity.
Defined.

(** *** A script without an interpreter *)






End Dispatcher.

(** * Further properties *)

(** ** The parser *)

Module ParserLaws.

Lemma strncpy_app_short (a b : string) (n : nat) :
  n <= String.length a -> strncpy (a ++ b) n = strncpy a n.
Proof.
  revert a; induction n as [|n IH]; intros [|c a] H; simpl in *;
    try reflexivity; try lia.
  f_equal. apply IH. lia.
Qed.

(** X1.  The parser looks at nothing but the target after the first [GET ]:
    what precedes that [GET ] (another method name that ends in it, other
    lines) and what follows the target are ignored, and a target that
    does not fit the path buffer is cut to [MAX_PATH_LENGTH - 1] bytes
    before it is decoded. *)
Theorem path_is_decoded_target (request pre target tail : string) :
  first_occurrence "GET " (c_str request) pre (target ++ " " ++ tail) ->
  ~ occurs " " target ->
  get_request_path request = url_decode (strncpy target (MAX_PATH_LENGTH - 1)).
Proof.
  intros H Hsp. rewrite (RequestParser.get_request_path_at _ _ _ H).
  change (target ++ " " ++ tail)%string with (target ++ String " " tail)%string.
  rewrite (strstr_first _ _ _ _
             (RequestParser.byte_first_occurrence " " target tail Hsp)).
  destruct (Nat.leb_spec MAX_PATH_LENGTH (String.length target)) as [Hlong|Hfit].
  - rewrite strncpy_app_short; [reflexivity|].
    unfold MAX_PATH_LENGTH in *. lia.
  - rewrite strncpy_app, strncpy_all; [reflexivity|].
    unfold MAX_PATH_LENGTH in *. lia.
Qed.

Lemma path_is_decoded_target_witness :
  get_request_path ("FORGET /a%20b HTTP/1.1" ++ CRLF) =
  url_decode (strncpy "/a%20b" (MAX_PATH_LENGTH - 1)).
Proof.
  apply (path_is_decoded_target ("FORGET /a%20b HTTP/1.1" ++ CRLF) "FOR" "/a%20b"
           ("HTTP/1.1" ++ CRLF)).
  - split; [reflexivity|]. intros pre' post' E.
    destruct pre' as [|a [|b [|c pre']]]; simpl in *; try discriminate E; lia.
  - apply strstr_none_sound. reflexivity.
Defined.

(** X2.  Decoding twice is decoding once, and decoding never lengthens. *)
Theorem url_decode_idempotent (s : string) :
  url_decode (url_decode s) = url_decode s /\
  String.length (url_decode s) <= String.length s.
Proof.
  split.
  - apply RequestParser.url_decode_plain, RequestParser.url_decode_clean.
  - apply RequestParser.url_decode_length.
Qed.

(** X3.  What the static buffer held before a call, the path of an earlier
    request for one, does not show in the path the call returns. *)
Theorem static_buffer_holds_no_stale_path (before request : string) :
  String.length before = MAX_PATH_LENGTH ->
  c_str (get_request_path_static before request) = get_request_path request /\
  forall before', String.length before' = MAX_PATH_LENGTH ->
    c_str (get_request_path_static before' request) =
    c_str (get_request_path_static before request).
Proof.
  intros H. split.
  - now apply StaticBuffer.get_request_path_static_correct.
  - intros before' H'. now rewrite !StaticBuffer.get_request_path_static_correct.
Qed.

Lemma static_buffer_holds_no_stale_path_witness :
  c_str (get_request_path_static
           (get_request_path_static (Samples.run "x" MAX_PATH_LENGTH)
                                    "GET /a/very/long/secret/path HTTP/1.1")
           "GET /b HTTP/1.1") = get_request_path "GET /b HTTP/1.1".
Proof.
  refine (proj1 (static_buffer_holds_no_stale_path
                   (get_request_path_static (Samples.run "x" MAX_PATH_LENGTH)
                      "GET /a/very/long/secret/path HTTP/1.1")
                   "GET /b HTTP/1.1" _)).
  vm_compute. reflexivity.
Defined.

End ParserLaws.

(** ** Extensions and content types *)

Module HelperLaws.

Lemma strrchr_none_sound (s : string) (c : ascii) :
  strrchr s c = None -> ~ occurs (String c "") s.
Proof.
  induction s as [|e s IH]; cbn [strrchr].
  - intros _. apply not_occurs_empty. discriminate.
  - destruct (strrchr s c) eqn:E; [discriminate|].
    destruct (Ascii.eqb_spec e c) as [->|Hne]; [discriminate|]. intros _ Ho.
    apply occurs_cons in Ho as [Ho|Ho].
    + apply prefix_iff in Ho as [post Ho]. simpl in Ho. congruence.
    + now apply IH.
Qed.

(** [strrchr] splits a string at its last [c]. *)
Lemma strrchr_some (s : string) (c : ascii) (i : nat) :
  strrchr s c = Some i ->
  s = (strncpy s i ++ String c (offset s (S i)))%string /\
  String.length (strncpy s i) = i /\
  ~ occurs (String c "") (offset s (S i)).
Proof.
  revert i; induction s as [|d s IH]; intros i; [discriminate|].
  cbn [strrchr]. destruct (strrchr s c) as [j|] eqn:E.
  - intros [= <-]. destruct (IH j eq_refl) as (Hs & Hl & Hn).
    cbn [strncpy offset append String.length]. split; [|split].
    + f_equal. exact Hs.
    + f_equal. exact Hl.
    + exact Hn.
  - destruct (Ascii.eqb_spec d c) as [->|_]; [|discriminate].
    intros [= <-]. cbn [strncpy offset append String.length].
    split; [reflexivity|]. split; [reflexivity|].
    now apply strrchr_none_sound.
Qed.

(** X4.  The extension is what follows the last dot of the whole file name,
    directories included, and so has no dot; it is empty when there is
    no dot after the first byte.  A slash does not end it. *)
Theorem extension_is_after_last_dot (filename : string) :
  ~ occurs "." (get_file_extension filename) /\
  ((exists stem, stem <> "" /\
                 filename = (stem ++ "." ++ get_file_extension filename)%string) \/
   (get_file_extension filename = "" /\ ~ occurs "." (offset filename 1))).
Proof.
  unfold get_file_extension. destruct (strrchr filename ".") as [[|dot]|] eqn:E.
  - apply strrchr_some in E as (Hs & _ & Hn). split.
    + apply not_occurs_empty. discriminate.
    + right. split; [reflexivity|exact Hn].
  - apply strrchr_some in E as (Hs & Hl & Hn).
    replace (S dot + 1) with (S (S dot)) by lia. split; [exact Hn|].
    left. exists (strncpy filename (S dot)). split; [|exact Hs].
    intros E. rewrite E in Hl. discriminate Hl.
  - apply strrchr_none_sound in E. split.
    + apply not_occurs_empty. discriminate.
    + right. split; [reflexivity|]. now apply StaticBuffer.not_occurs_offset.
Qed.

(** X5.  The fallback type is given to the extensions outside the table, and
    to no other: the comparison is exact, letter case included. *)
Theorem fallback_type_iff_unknown (extension : string) :
  ~ occurs (String NUL "") extension ->
  (get_content_type extension = "application/octet-stream" <->
   ~ In extension known_extensions).
Proof.
  intros Hnul. split.
  - intros H Hin. simpl in Hin.
    repeat destruct Hin as [<-|Hin]; try discriminate H. exact Hin.
  - now apply StaticFileServer.content_type_fallback.
Qed.

Lemma fallback_type_iff_unknown_witness :
  get_content_type "JPG" = "application/octet-stream" <->
  ~ In "JPG" known_extensions.
Proof.
  apply (fallback_type_iff_unknown "JPG").
  apply strstr_none_sound. reflexivity.
Defined.

End HelperLaws.

(** ** The two servers *)

Module ServerLaws.

(** X6.  The header buffer of [serve_file] holds the head for every content
    type of the table and every size a [long] can print: [snprintf]
    never cuts it. *)
Theorem file_headers_never_cut (extension : string) (st_size : Z) :
  file_headers (get_content_type extension) st_size =
  response_head "200 OK"
    [ "Content-Type: " ++ get_content_type extension;
      "Content-Length: " ++ print_ld st_size;
      "Connection: close" ]%string.
Proof.
  apply StaticFileServer.file_headers_eq, StaticFileServer.content_type_length.
Qed.

Lemma copy_node_output (n : node) :
  client_output (trace_of (copy_node n)) = readable_bytes n.
Proof.
  destruct n as [data r|size r]; [|reflexivity].
  apply StaticFileServer.copy_file_output. unfold BUFFER_SIZE. lia.
Qed.

Lemma serve_file_client_output (w : world) (file_path : string) :
  client_output (trace_of (serve_file w file_path)) =
  match lookup w file_path with
  | None => not_found_response
  | Some n =>
      if negb (may_read n) then not_found_response
      else if negb (w_fstat_ok w) then server_error_response
      else (file_headers (get_content_type (get_file_extension file_path)) (size_of n)
            ++ readable_bytes n)%string
  end.
Proof.
  destruct (lookup w file_path) as [n|] eqn:Hl.
  - destruct (may_read n) eqn:Hr; cbn [negb].
    + destruct (w_fstat_ok w) eqn:Hs; cbn [negb].
      * rewrite (StaticFileServer.serve_file_opened w file_path n Hl Hr Hs).
        change (client_output (EvOpen ?p ?b :: EvFstat ?s :: ?t)) with (client_output t).
        rewrite client_output_write, client_output_app, copy_node_output.
        change (client_output [EvClose FileFd]) with "". now rewrite app_nil_r.
      * unfold serve_file, sys_open, sys_fstat. rewrite Hl, Hr, Hs. reflexivity.
    + unfold serve_file, sys_open. rewrite Hl, Hr. reflexivity.
  - unfold serve_file, sys_open. rewrite Hl. reflexivity.
Qed.

(** X7.  What the client receives from [serve_file], on each of its paths:
    404 when the file does not open, 500 when it opens and [fstat]
    fails, and otherwise a 200 head with the size [fstat] reports
    followed by the bytes that can be read, which for a directory are
    none. *)
Theorem serve_file_output (w : world) (file_path : string) :
  client_output (trace_of (serve_file w file_path)) =
  match lookup w file_path with
  | None => not_found_response
  | Some n =>
      if negb (may_read n) then not_found_response
      else if negb (w_fstat_ok w) then server_error_response
      else (file_headers (get_content_type (get_file_extension file_path)) (size_of n)
            ++ readable_bytes n)%string
  end.
Proof. exact (serve_file_client_output w file_path). Qed.

Lemma serve_php_client_output (w : world) (file_path : string) :
  client_output (trace_of (serve_php w file_path)) =
  match w_pipe_ok w, w_fork w with
  | true, Some _ => (php_headers ++ pipe_output (fst (child w file_path)))%string
  | _, _ => server_error_response
  end.
Proof.
  destruct (w_pipe_ok w) eqn:Hp.
  - destruct (w_fork w) as [pid|] eqn:Hf.
    + rewrite (ScriptExecutor.serve_php_forked w file_path pid Hp Hf).
      destruct (ScriptExecutor.relay_pipe_trace (fst (child w file_path)))
        as (relay & -> & _ & Hout & _).
      cbn [app].
      change (client_output (EvPipe ?a :: EvFork ?b :: EvClose ?c :: ?t))
        with (client_output t).
      rewrite client_output_write, !client_output_app, Hout.
      change (client_output [EvRead PipeRead (Some "")]) with "".
      change (client_output [EvClose PipeRead; EvWaitpid pid (snd (child w file_path))])
        with "".
      now rewrite !app_nil_r.
    + unfold serve_php, sys_pipe, sys_fork. rewrite Hp, Hf. reflexivity.
  - unfold serve_php, sys_pipe. rewrite Hp. reflexivity.
Qed.

(** X8.  What the client receives from [serve_php]: 500 when [pipe] or
    [fork] fails, and otherwise the 200 head, with no length, followed by
    exactly what the child wrote to the pipe before end-of-stream: the
    output of the interpreter, or, when [execl] fails, the pending log
    text that the child flushes at its exit. *)
Theorem serve_php_output (w : world) (file_path : string) :
  client_output (trace_of (serve_php w file_path)) =
  match w_pipe_ok w, w_fork w with
  | true, Some _ => (php_headers ++ pipe_output (fst (child w file_path)))%string
  | _, _ => server_error_response
  end.
Proof. exact (serve_php_client_output w file_path). Qed.

End ServerLaws.

(** ** A connection *)

Module ConnectionLaws.

(** A request line [GET <target> ...] that is read whole. *)
Lemma handle_client_line (w : world) (target tail : string) :
  ~ occurs " " target ->
  ~ occurs (String NUL "") target ->
  String.length target < MAX_PATH_LENGTH ->
  exists buffer,
    handle_client w (Some ("GET " ++ target ++ " " ++ tail)%string) =
    match resolve w (url_decode target) with
    | None => Undefined
    | Some resolution =>
        Defined (EvRead Client (Some buffer) ::
                 trace_of (t <- resolution ;; respond w t ;; sys_close Client))
    end.
Proof.
  intros Hsp Hnul Hfit.
  set (rest := strncpy tail (BUFFER_SIZE - 1 - String.length ("GET " ++ target ++ " "))).
  assert (Hread : strncpy ("GET " ++ target ++ " " ++ tail) (BUFFER_SIZE - 1) =
                  String "G" ("ET " ++ target ++ " " ++ rest)).
  { replace ("GET " ++ target ++ " " ++ tail)%string
      with (("GET " ++ target ++ " ") ++ tail)%string
      by (now rewrite !app_assoc).
    rewrite Dispatcher.strncpy_app_l.
    - fold rest. now rewrite !app_assoc.
    - rewrite !length_app. cbn [String.length].
      unfold MAX_PATH_LENGTH, BUFFER_SIZE in *. lia. }
  exists (String "G" ("ET " ++ target ++ " " ++ rest)).
  rewrite (Dispatcher.handle_client_read w _ _ _ Hread).
  change (String "G" ("ET " ++ target ++ " " ++ rest))
    with ("GET " ++ target ++ " " ++ rest)%string.
  now rewrite RequestParser.get_request_path_line.
Qed.

(** What the client receives on such a connection is what the handler
    chosen by [resolve] sends. *)
Lemma handle_client_line_output
  (w : world) (stats : trace) (tg : target) (target tail : string) :
  ~ occurs " " target ->
  ~ occurs (String NUL "") target ->
  String.length target < MAX_PATH_LENGTH ->
  resolve w (url_decode target) = Some (stats, tg) ->
  exists buffer,
    handle_client w (Some ("GET " ++ target ++ " " ++ tail)%string) =
      Defined (EvRead Client (Some buffer) :: stats ++
               trace_of (respond w tg) ++ [EvClose Client]) /\
    client_output (EvRead Client (Some buffer) :: stats ++
                   trace_of (respond w tg) ++ [EvClose Client]) =
    client_output (trace_of (respond w tg)).
Proof.
  intros Hsp Hnul Hfit Hres.
  destruct (handle_client_line w target tail Hsp Hnul Hfit) as [buffer H].
  rewrite Hres in H. exists buffer. split.
  - rewrite H. rewrite !trace_of_bind, trace_of_pair. reflexivity.
  - apply Dispatcher.resolve_writes in Hres as [Hw _]. rewrite trace_of_pair in Hw.
    unfold client_output at 1. cbn [client_writes].
    rewrite !client_writes_app, Hw. cbn [client_writes app].
    now rewrite List.app_nil_r.
Qed.

(** X9.  A request for an existing file that is not a script, from request
    line to response: the file named by document root and decoded target
    is sent whole, behind a 200 head with its type and size.  The target
    is not checked for [..] segments. *)
Theorem static_file_request
  (w : world) (target tail data : string) (last : ascii) :
  ~ occurs " " target ->
  ~ occurs (String NUL "") target ->
  String.length target < MAX_PATH_LENGTH ->
  last_byte (url_decode target) = Some last ->
  last <> "/"%char ->
  String.length (WWW_DIRECTORY ++ url_decode target) < MAX_PATH_LENGTH ->
  lookup w (WWW_DIRECTORY ++ url_decode target) = Some (Reg data true) ->
  w_fstat_ok w = true ->
  (strcasecmp (get_file_extension (WWW_DIRECTORY ++ url_decode target)) "php" =? 0)%Z
    = false ->
  exists t,
    handle_client w (Some ("GET " ++ target ++ " " ++ tail)%string) = Defined t /\
    client_output t =
    (response_head "200 OK"
       [ "Content-Type: " ++
           get_content_type (get_file_extension (WWW_DIRECTORY ++ url_decode target));
         "Content-Length: " ++ print_ld (Z.of_nat (String.length data));
         "Connection: close" ] ++ data)%string.
Proof.
  intros Hsp Hnul Hfit Hlast Hnot Hpath Hl Hs Hext.
  pose proof (PathResolver.resolve_file w _ last Hlast Hnot Hpath) as Hres.
  cbv zeta in Hres. unfold exists_in in Hres. rewrite Hl, Hext in Hres.
  destruct (handle_client_line_output w _ _ target tail Hsp Hnul Hfit Hres)
    as (buffer & H & Hout).
  eexists. split; [exact H|]. rewrite Hout. cbn [respond].
  rewrite ServerLaws.serve_file_client_output, Hl. cbn [may_read negb].
  rewrite Hs. cbn [negb size_of readable_bytes].
  rewrite StaticFileServer.file_headers_eq
    by apply StaticFileServer.content_type_length.
  reflexivity.
Qed.

Lemma static_file_request_witness :
  exists t,
    handle_client Samples.healthy
      (Some ("GET " ++ "/NOTES.Txt" ++ " " ++ "HTTP/1.1")%string) = Defined t /\
    client_output t =
    (response_head "200 OK"
       [ "Content-Type: application/octet-stream";
         "Content-Length: 5";
         "Connection: close" ] ++ "notes")%string.
Proof.
  apply (static_file_request Samples.healthy "/NOTES.Txt" "HTTP/1.1" "notes" "t").
  - apply strstr_none_sound. reflexivity.
  - apply strstr_none_sound. reflexivity.
  - apply Nat.ltb_lt. vm_compute. reflexivity.
  - vm_compute. reflexivity.
  - discriminate.
  - apply Nat.ltb_lt. vm_compute. reflexivity.
  - vm_compute. reflexivity.
  - reflexivity.
  - vm_compute. reflexivity.
Defined.

(** X10.  A request for a file that does not exist, from request line to
    response: one [stat], the 404 response, and the connection is
    closed; nothing is opened and no process is started. *)
Theorem missing_file_request (w : world) (target tail : string) (last : ascii) :
  ~ occurs " " target ->
  ~ occurs (String NUL "") target ->
  String.length target < MAX_PATH_LENGTH ->
  last_byte (url_decode target) = Some last ->
  last <> "/"%char ->
  String.length (WWW_DIRECTORY ++ url_decode target) < MAX_PATH_LENGTH ->
  exists_in w (WWW_DIRECTORY ++ url_decode target) = false ->
  exists buffer,
    handle_client w (Some ("GET " ++ target ++ " " ++ tail)%string) =
    Defined [ EvRead Client (Some buffer);
              EvStat (WWW_DIRECTORY ++ url_decode target) false;
              EvWrite Client not_found_response;
              EvClose Client ].
Proof.
  intros Hsp Hnul Hfit Hlast Hnot Hpath Hex.
  pose proof (PathResolver.resolve_file w _ last Hlast Hnot Hpath) as Hres.
  cbv zeta in Hres. rewrite Hex in Hres.
  destruct (handle_client_line_output w _ _ target tail Hsp Hnul Hfit Hres)
    as (buffer & H & _).
  exists buffer. exact H.
Qed.

Lemma missing_file_request_witness :
  exists buffer,
    handle_client Samples.healthy
      (Some ("GET " ++ "/no-such-file" ++ " " ++ "HTTP/1.1")%string) =
    Defined [ EvRead Client (Some buffer);
              EvStat "./www/no-such-file" false;
              EvWrite Client not_found_response;
              EvClose Client ].
Proof.
  apply (missing_file_request Samples.healthy "/no-such-file" "HTTP/1.1" "e").
  - apply strstr_none_sound. reflexivity.
  - apply strstr_none_sound. reflexivity.
  - apply Nat.ltb_lt. vm_compute. reflexivity.
  - vm_compute. reflexivity.
  - discriminate.
  - apply Nat.ltb_lt. vm_compute. reflexivity.
  - vm_compute. reflexivity.
Defined.

Lemma last_byte_php (e : string) :
  lower e = "php" -> exists last, last_byte e = Some last /\ last <> "/"%char.
Proof.
  destruct e as [|a [|b [|c [|d e]]]]; try discriminate. intros [= _ _ Hc].
  exists c. split; [reflexivity|]. intros ->. discriminate Hc.
Qed.

(** X11.  A request for an existing script, from request line to response,
    when [pipe], [fork] and [execl] succeed: the client receives the 200
    head and exactly what the interpreter wrote before it closed its
    output. *)
Theorem script_request
  (w : world) (target tail stem e : string) (pid : nat) :
  ~ occurs " " target ->
  ~ occurs (String NUL "") target ->
  String.length target < MAX_PATH_LENGTH ->
  url_decode target = (stem ++ "." ++ e)%string ->
  lower e = "php" ->
  String.length (WWW_DIRECTORY ++ url_decode target) < MAX_PATH_LENGTH ->
  exists_in w (WWW_DIRECTORY ++ url_decode target) = true ->
  w_pipe_ok w = true ->
  w_fork w = Some pid ->
  w_php_executable w = true ->
  exists t,
    handle_client w (Some ("GET " ++ target ++ " " ++ tail)%string) = Defined t /\
    client_output t =
    (php_headers ++
     pipe_output (fst (w_php w (WWW_DIRECTORY ++ url_decode target))))%string.
Proof.
  intros Hsp Hnul Hfit Hpath He Hlen Hex Hp Hf Hx.
  destruct (last_byte_php e He) as (last & Hlast & Hnot).
  assert (Hlast' : last_byte (url_decode target) = Some last).
  { rewrite Hpath, <- app_assoc, last_byte_app; [exact Hlast|].
    intros ->. discriminate He. }
  pose proof (PathResolver.resolve_file w _ last Hlast' Hnot Hlen) as Hres.
  cbv zeta in Hres. rewrite Hex in Hres.
  assert (Hext : (strcasecmp (get_file_extension (WWW_DIRECTORY ++ url_decode target))
                             "php" =? 0)%Z = true).
  { rewrite Hpath. change ("." ++ e)%string with (String "." e).
    rewrite <- app_assoc.
    rewrite extension_of
      by (discriminate || now apply PathResolver.lower_php_no_dot).
    now rewrite (strcasecmp_lower e "php") by exact He. }
  rewrite Hext in Hres.
  destruct (handle_client_line_output w _ _ target tail Hsp Hnul Hfit Hres)
    as (buffer & H & Hout).
  eexists. split; [exact H|]. rewrite Hout. cbn [respond].
  rewrite ServerLaws.serve_php_client_output, Hp, Hf. unfold child. now rewrite Hx.
Qed.

Lemma script_request_witness :
  exists t,
    handle_client Samples.healthy
      (Some ("GET " ++ "/page.PHP" ++ " " ++ "HTTP/1.1")%string) = Defined t /\
    client_output t = (php_headers ++ "hello")%string.
Proof.
  apply (script_request Samples.healthy "/page.PHP" "HTTP/1.1" "/page" "PHP" 4242).
  - apply strstr_none_sound. reflexivity.
  - apply strstr_none_sound. reflexivity.
  - apply Nat.ltb_lt. vm_compute. reflexivity.
  - vm_compute. reflexivity.
  - reflexivity.
  - apply Nat.ltb_lt. vm_compute. reflexivity.
  - vm_compute. reflexivity.
  - reflexivity.
  - reflexivity.
  - reflexivity.
Defined.

Lemma last_byte_none (s : string) : last_byte s = None <-> s = "".
Proof.
  split; [|intros ->; reflexivity].
  induction s as [|c s IH]; [reflexivity|]. cbn [last_byte].
  destruct s; [discriminate|]. intros H. apply IH in H. discriminate H.
Qed.

Lemma resolve_none (w : world) (request_path : string) :
  resolve w request_path = None <-> request_path = "".
Proof.
  rewrite <- last_byte_none. unfold resolve.
  destruct (last_byte request_path) as [last|]; [|tauto].
  destruct (Ascii.eqb last "/"); split; discriminate.
Qed.




(** *** The out-of-bounds index *)

(** X13.  [handle_client] indexes the request path at [-1] exactly when a
    request was read and its path is empty; a request line with two
    spaces after [GET] is such a request. *)
Theorem undefined_iff_empty_path (w : world) (incoming : option string) :
  (handle_client w incoming = Undefined <->
   exists sent, incoming = Some sent /\ sent <> "" /\
                get_request_path (strncpy sent (BUFFER_SIZE - 1)) = "") /\
  (forall tail, handle_client w (Some ("GET  " ++ tail)%string) = Undefined).
Proof.
  split.
  - destruct incoming as [[|c sent]|].
    + split; [discriminate|]. intros (sent & [= <-] & H & _). congruence.
    + assert (E : strncpy (String c sent) (BUFFER_SIZE - 1) = String c (strncpy sent 4094))
        by reflexivity.
      revert E. generalize (strncpy sent 4094). intros buffer E.
      rewrite (Dispatcher.handle_client_read w _ c buffer E). split.
      * intros H. exists (String c sent). rewrite E.
        repeat split; [discriminate|]. apply (resolve_none w).
        destruct (resolve w _); [discriminate H|reflexivity].
      * intros (sent' & [= <-] & _ & H). rewrite E in H.
        apply (resolve_none w) in H. now rewrite H.
    + split; [discriminate|]. intros (sent & H & _). discriminate H.
  - intros tail.
    destruct (handle_client_line w "" tail) as [buffer H].
    + apply strstr_none_sound. reflexivity.
    + apply strstr_none_sound. reflexivity.
    + unfold MAX_PATH_LENGTH. simpl. lia.
    + change ("GET " ++ "" ++ " " ++ tail)%string with ("GET  " ++ tail)%string in H.
      rewrite H. rewrite RequestParser.url_decode_nil.
      now rewrite (proj2 (resolve_none w "") eq_refl).
Qed.

(** *** Children *)

Lemma unreaped_exchange (live : list nat) (f : fd) (chunks : list string) :
  unreaped_from live (exchange f chunks) = live.
Proof. induction chunks as [|c chunks IH]; simpl; auto. Qed.

Lemma unreaped_serve_file (w : world) (file_path : string) (live : list nat) :
  unreaped_from live (trace_of (serve_file w file_path)) = live.
Proof.
  destruct (lookup w file_path) as [n|] eqn:Hl.
  - destruct (may_read n) eqn:Hr.
    + destruct (w_fstat_ok w) eqn:Hs.
      * rewrite (StaticFileServer.serve_file_opened w file_path n Hl Hr Hs).
        cbn [unreaped_from]. rewrite ScriptExecutor.unreaped_from_app.
        destruct n as [data r|size r]; cbn [copy_node]; [|reflexivity].
        destruct (Dispatcher.copy_file_shape BUFFER_SIZE data) as [chunks ->].
        now rewrite ScriptExecutor.unreaped_from_app, unreaped_exchange.
      * unfold serve_file, sys_open, sys_fstat. rewrite Hl, Hr, Hs. reflexivity.
    + unfold serve_file, sys_open. rewrite Hl, Hr. reflexivity.
  - unfold serve_file, sys_open. rewrite Hl. reflexivity.
Qed.

Lemma unreaped_serve_php (w : world) (file_path : string) :
  unreaped_from [] (trace_of (serve_php w file_path)) = [].
Proof.
  destruct (w_pipe_ok w) eqn:Hp.
  - destruct (w_fork w) as [pid|] eqn:Hf.
    + rewrite (ScriptExecutor.serve_php_forked w file_path pid Hp Hf).
      destruct (ScriptExecutor.relay_pipe_trace (fst (child w file_path)))
        as (relay & -> & _ & _ & Hlive).
      rewrite !ScriptExecutor.unreaped_from_app. cbn [unreaped_from app].
      rewrite Hlive. cbn [unreaped_from remove].
      destruct (Nat.eq_dec pid pid); [reflexivity|congruence].
    + unfold serve_php, sys_pipe, sys_fork. rewrite Hp, Hf. reflexivity.
  - unfold serve_php, sys_pipe. rewrite Hp. reflexivity.
Qed.

Lemma unreaped_resolve (w : world) (request_path : string) (r : Sys target)
      (live : list nat) :
  resolve w request_path = Some r -> unreaped_from live (trace_of r) = live.
Proof.
  unfold resolve. destruct (last_byte request_path) as [last|]; [|discriminate].
  unfold file_exists. rewrite !PathResolver.sys_stat_eq.
  destruct (Ascii.eqb last "/"); intros [= <-]; cbn [bind ret].
  - destruct (exists_in w _); cbn [bind ret]; [reflexivity|].
    destruct (exists_in w _); reflexivity.
  - destruct (exists_in w _); [destruct (strcasecmp _ "php" =? 0)%Z|]; reflexivity.
Qed.

(** The trace of every connection that is handled. *)
Lemma handle_client_defined (w : world) (incoming : option string) (t : trace) :
  handle_client w incoming = Defined t ->
  (exists got, t = [EvRead Client got; EvClose Client]) \/
  (exists buffer request_path r,
      resolve w request_path = Some r /\
      t = EvRead Client (Some buffer) ::
          trace_of r ++ trace_of (respond w (snd r)) ++ [EvClose Client]).
Proof.
  destruct incoming as [[|c sent]|].
  - intros [= <-]. left. eauto.
  - assert (E : strncpy (String c sent) (BUFFER_SIZE - 1) = String c (strncpy sent 4094))
      by reflexivity.
    revert E. generalize (strncpy sent 4094). intros buffer E.
    rewrite (Dispatcher.handle_client_read w _ c buffer E).
    destruct (resolve w _) as [r|] eqn:Hr; [|discriminate].
    intros [= <-]. right.
    exists (String c buffer), (get_request_path (String c buffer)), r.
    split; [exact Hr|].
    rewrite !trace_of_bind. reflexivity.
  - intros [= <-]. left. eauto.
Qed.

(** X14.  No connection leaves a child process behind: whatever [fork]
    started has been waited for when [handle_client] returns. *)
Theorem no_zombie_after_connection
  (w : world) (incoming : option string) (t : trace) :
  handle_client w incoming = Defined t -> unreaped t = [].
Proof.
  intros H. apply handle_client_defined in H
    as [[got ->]|(buffer & p & r & Hr & ->)]; [reflexivity|].
  unfold unreaped. cbn [unreaped_from].
  rewrite !ScriptExecutor.unreaped_from_app, (unreaped_resolve _ _ _ _ Hr).
  destruct (snd r) as [file_path|file_path|]; cbn [respond].
  - now rewrite unreaped_serve_file.
  - now rewrite unreaped_serve_php.
  - reflexivity.
Qed.

Lemma no_zombie_after_connection_witness :
  exists t,
    handle_client Samples.healthy (Samples.request "GET /info.php HTTP/1.1") = Defined t /\
    In (EvFork (Some 4242)) t /\ unreaped t = [].
Proof.
  eexists. split; [vm_compute; reflexivity|]. split.
  - simpl. tauto.
  - apply (no_zombie_after_connection
             Samples.healthy (Samples.request "GET /info.php HTTP/1.1")).
    vm_compute. reflexivity.
Defined.

(** *** Descriptors *)

Lemma descriptors_app (open : list fd) (t1 t2 : trace) :
  descriptors open (t1 ++ t2) =
  match descriptors open t1 with
  | Some open' => descriptors open' t2
  | None => None
  end.
Proof.
  revert open; induction t1 as [|e t1 IH]; intros open; [reflexivity|].
  destruct e as [p ok|p [|]|s|[|]|c|f got|f data|f|c st]; cbn [app descriptors];
    repeat match goal with
           | |- context [if ?b then _ else _] => destruct b
           end; auto.
Qed.

Lemma descriptors_exchange (open : list fd) (f : fd) (chunks : list string) :
  is_open f open = true -> is_open Client open = true ->
  descriptors open (exchange f chunks) = Some open.
Proof.
  intros Hf Hc. induction chunks as [|c chunks IH]; [reflexivity|].
  cbn [exchange flat_map app descriptors]. rewrite Hf, Hc. exact IH.
Qed.

Lemma descriptors_serve_file (w : world) (file_path : string) :
  descriptors [Client] (trace_of (serve_file w file_path)) = Some [Client].
Proof.
  destruct (lookup w file_path) as [n|] eqn:Hl.
  - destruct (may_read n) eqn:Hr.
    + destruct (w_fstat_ok w) eqn:Hs.
      * rewrite (StaticFileServer.serve_file_opened w file_path n Hl Hr Hs).
        cbn [descriptors is_open existsb fd_eqb orb].
        rewrite descriptors_app.
        destruct n as [data r|size r]; cbn [copy_node]; [|reflexivity].
        destruct (Dispatcher.copy_file_shape BUFFER_SIZE data) as [chunks ->].
        rewrite descriptors_app, descriptors_exchange by reflexivity. reflexivity.
      * unfold serve_file, sys_open, sys_fstat. rewrite Hl, Hr, Hs. reflexivity.
    + unfold serve_file, sys_open. rewrite Hl, Hr. reflexivity.
  - unfold serve_file, sys_open. rewrite Hl. reflexivity.
Qed.

Lemma descriptors_serve_php (w : world) (file_path : string) :
  descriptors [Client] (trace_of (serve_php w file_path)) = Some [Client].
Proof.
  destruct (w_pipe_ok w) eqn:Hp.
  - destruct (w_fork w) as [pid|] eqn:Hf.
    + rewrite (ScriptExecutor.serve_php_forked w file_path pid Hp Hf).
      destruct (Dispatcher.relay_pipe_shape (fst (child w file_path))) as [chunks ->].
      cbn [app descriptors is_open existsb fd_eqb orb shut filter negb].
      rewrite !descriptors_app, descriptors_exchange by reflexivity. reflexivity.
    + unfold serve_php, sys_pipe, sys_fork. rewrite Hp, Hf. reflexivity.
  - unfold serve_php, sys_pipe. rewrite Hp. reflexivity.
Qed.

Lemma descriptors_resolve (w : world) (request_path : string) (r : Sys target)
      (open : list fd) :
  resolve w request_path = Some r -> descriptors open (trace_of r) = Some open.
Proof.
  unfold resolve. destruct (last_byte request_path) as [last|]; [|discriminate].
  unfold file_exists. rewrite !PathResolver.sys_stat_eq.
  destruct (Ascii.eqb last "/"); intros [= <-]; cbn [bind ret].
  - destruct (exists_in w _); cbn [bind ret]; [reflexivity|].
    destruct (exists_in w _); reflexivity.
  - destruct (exists_in w _); [destruct (strcasecmp _ "php" =? 0)%Z|]; reflexivity.
Qed.

(** X15.  On every path through [handle_client], failures included, every
    descriptor that is used is open, none is closed twice, the file and
    both ends of the pipe are closed again, and the last thing done is to
    close the connection. *)
Theorem descriptors_all_closed
  (w : world) (incoming : option string) (t : trace) :
  handle_client w incoming = Defined t ->
  descriptors [Client] t = Some [] /\
  exists before, t = before ++ [EvClose Client].
Proof.
  intros H. apply handle_client_defined in H
    as [[got ->]|(buffer & p & r & Hr & ->)].
  - split; [reflexivity|]. exists [EvRead Client got]. reflexivity.
  - split.
    + cbn [descriptors is_open existsb fd_eqb orb].
      rewrite descriptors_app, (descriptors_resolve _ _ _ _ Hr), descriptors_app.
      destruct (snd r) as [file_path|file_path|]; cbn [respond].
      * now rewrite descriptors_serve_file.
      * now rewrite descriptors_serve_php.
      * reflexivity.
    + exists (EvRead Client (Some buffer) :: trace_of r ++ trace_of (respond w (snd r))).
      cbn [app]. now rewrite <- List.app_assoc.
Qed.

Lemma descriptors_all_closed_witness :
  exists t,
    handle_client Samples.healthy (Samples.request "GET /info.php HTTP/1.1") = Defined t /\
    descriptors [Client] t = Some [] /\
    exists before, t = before ++ [EvClose Client].
Proof.
  eexists. split; [vm_compute; reflexivity|].
  apply (descriptors_all_closed
           Samples.healthy (Samples.request "GET /info.php HTTP/1.1")).
  vm_compute. reflexivity.
Defined.

(** *** Path names *)

Lemma paths_used_app (t1 t2 : trace) :
  paths_used (t1 ++ t2) = paths_used t1 ++ paths_used t2.
Proof.
  induction t1 as [|e t1 IH]; [reflexivity|].
  destruct e; cbn [app paths_used]; rewrite IH; reflexivity.
Qed.

Lemma paths_used_exchange (f : fd) (chunks : list string) :
  paths_used (exchange f chunks) = [].
Proof. induction chunks as [|c chunks IH]; simpl; auto. Qed.

Lemma paths_used_serve_file (w : world) (file_path : string) :
  paths_used (trace_of (serve_file w file_path)) = [file_path].
Proof.
  destruct (lookup w file_path) as [n|] eqn:Hl.
  - destruct (may_read n) eqn:Hr.
    + destruct (w_fstat_ok w) eqn:Hs.
      * rewrite (StaticFileServer.serve_file_opened w file_path n Hl Hr Hs).
        cbn [paths_used]. rewrite paths_used_app. f_equal.
        destruct n as [data r|size r]; cbn [copy_node]; [|reflexivity].
        destruct (Dispatcher.copy_file_shape BUFFER_SIZE data) as [chunks ->].
        now rewrite paths_used_app, paths_used_exchange.
      * unfold serve_file, sys_open, sys_fstat. rewrite Hl, Hr, Hs. reflexivity.
    + unfold serve_file, sys_open. rewrite Hl, Hr. reflexivity.
  - unfold serve_file, sys_open. rewrite Hl. reflexivity.
Qed.

Lemma paths_used_serve_php (w : world) (file_path : string) :
  paths_used (trace_of (serve_php w file_path)) = [].
Proof.
  destruct (w_pipe_ok w) eqn:Hp.
  - destruct (w_fork w) as [pid|] eqn:Hf.
    + rewrite (ScriptExecutor.serve_php_forked w file_path pid Hp Hf).
      destruct (Dispatcher.relay_pipe_shape (fst (child w file_path))) as [chunks ->].
      cbn [app paths_used]. now rewrite !paths_used_app, paths_used_exchange.
    + unfold serve_php, sys_pipe, sys_fork. rewrite Hp, Hf. reflexivity.
  - unfold serve_php, sys_pipe. rewrite Hp. reflexivity.
Qed.

Lemma snprintf_fits_buffer (parts : list string) :
  fits_path_buffer (snprintf MAX_PATH_LENGTH parts).
Proof. apply strncpy_length. Qed.

Lemma resolve_fits (w : world) (request_path : string) (r : Sys target) :
  resolve w request_path = Some r ->
  Forall fits_path_buffer (paths_used (trace_of r)) /\
  match snd r with
  | StaticFile file_path | ScriptFile file_path => fits_path_buffer file_path
  | NotFound => True
  end.
Proof.
  unfold resolve. destruct (last_byte request_path) as [last|]; [|discriminate].
  unfold file_exists. rewrite !PathResolver.sys_stat_eq.
  assert (Hall : forall l, Forall fits_path_buffer
                             (map (snprintf MAX_PATH_LENGTH) l)).
  { intros l. apply Forall_forall. intros x Hx.
    apply in_map_iff in Hx as (parts & <- & _). apply snprintf_fits_buffer. }
  destruct (Ascii.eqb last "/"); intros [= <-]; cbn [bind ret].
  - destruct (exists_in w _); cbn [bind ret].
    + split; [|apply snprintf_fits_buffer].
      exact (Hall [[snprintf MAX_PATH_LENGTH [WWW_DIRECTORY; request_path];
                    "/index.html"]]).
    + destruct (exists_in w _); cbn [trace_of fst snd app paths_used];
        (split; [|exact I || apply snprintf_fits_buffer]);
        exact (Hall [[snprintf MAX_PATH_LENGTH [WWW_DIRECTORY; request_path];
                      "/index.html"];
                     [snprintf MAX_PATH_LENGTH [WWW_DIRECTORY; request_path];
                      "/index.php"]]).
  - destruct (exists_in w _); [destruct (strcasecmp _ "php" =? 0)%Z|];
      cbn [trace_of fst snd app paths_used];
      (split; [|exact I || apply snprintf_fits_buffer]);
      exact (Hall [[WWW_DIRECTORY; request_path]]).
Qed.

(** X16.  Whatever the length of the request, every path name the server hands
    to [stat] or [open] is at most [MAX_PATH_LENGTH - 1] bytes long: the
    path buffers are never overrun. *)
Theorem every_path_fits_buffer
  (w : world) (incoming : option string) (t : trace) :
  handle_client w incoming = Defined t ->
  Forall (fun path => String.length path <= MAX_PATH_LENGTH - 1) (paths_used t).
Proof.
  intros H. apply handle_client_defined in H
    as [[got ->]|(buffer & p & r & Hr & ->)]; [constructor|].
  apply resolve_fits in Hr as [Hstat Htarget].
  cbn [paths_used]. rewrite !paths_used_app. apply Forall_app. split; [exact Hstat|].
  apply Forall_app. split; [|constructor].
  destruct (snd r) as [file_path|file_path|]; cbn [respond].
  - rewrite paths_used_serve_file. apply Forall_cons; [exact Htarget|constructor].
  - rewrite paths_used_serve_php. constructor.
  - constructor.
Qed.

Lemma every_path_fits_buffer_witness :
  exists t,
    handle_client Samples.long
      (Some ("GET " ++ Samples.long_path ++ " HTTP/1.1")%string) = Defined t /\
    String.length ("./www" ++ Samples.long_path) = 260 /\
    Forall (fun path => String.length path <= MAX_PATH_LENGTH - 1) (paths_used t).
Proof.
  eexists. split; [vm_compute; reflexivity|]. split; [reflexivity|].
  apply (every_path_fits_buffer Samples.long
           (Some ("GET " ++ Samples.long_path ++ " HTTP/1.1")%string)).
  vm_compute. reflexivity.
Defined.

End ConnectionLaws.
